(** * RUMBA: a random-walk cleaning robot on a bounded grid

    Shallow embedding of [src/RUMBA/rumba.py] (classes [Casa] and [Rumba],
    [plot_grid] and the main simulation loop) and the properties of its
    specification.

    Python integers are unbounded, hence [Z].  Python lists are mutable
    objects that the program hands around by reference ([Casa] returns its
    own list, [Rumba] keeps it, [get_state] puts it in a dict), so lists live
    in a store ([heap]) and the objects hold locations.  The module [random]
    is modelled by a tape of raw draws that is read left to right. *)

From stdpp Require Import base option list list_numbers gmap fin_maps.
From Stdlib Require Import ZArith Lia.

Local Open Scope Z_scope.

(** ** Data *)

(** A position is the tuple [(row, col)]. *)
Abbreviation Position := (Z * Z)%type.

(** Locations of list objects. *)
Abbreviation loc := nat.

(** What [plot_grid] is handed: the dict built by [Rumba.get_state].  The
    position is a tuple (a value); the two lists are references. *)
Record Snapshot : Type := mkSnapshot {
  snap_position : Position;
  snap_dirt_positions : loc;
  snap_cleaned_spots : loc
}.

(** One rendered frame: the grid size and the contents the plot reads from
    the dict at the time of the call. *)
Record Frame : Type := mkFrame {
  frame_grid : Z * Z;
  frame_position : Position;
  frame_dirt : list Position;
  frame_cleaned : list Position
}.

(** The world a statement runs in: the store of list objects, the random
    source (an unbounded tape of raw draws and the index of the next one),
    and the frames shown so far. *)
Record World : Type := mkWorld {
  heap : gmap loc (list Position);
  tape : nat → Z;
  cursor : nat;
  plots : list Frame
}.

Definition upd_heap (f : gmap loc (list Position) → gmap loc (list Position))
    (w : World) : World :=
  {| heap := f (heap w); tape := tape w; cursor := cursor w; plots := plots w |}.

Definition advance (w : World) : World :=
  {| heap := heap w; tape := tape w; cursor := S (cursor w); plots := plots w |}.

Definition show (fr : Frame) (w : World) : World :=
  {| heap := heap w; tape := tape w; cursor := cursor w;
     plots := plots w ++ [fr] |}.

(** ** Outcomes and the statement monad *)

(** Exceptions of the Python run time that the program can meet.
    [InvalidRef] has no Python counterpart (a Python reference is never
    dangling): it is the outcome of reading a location the store does not
    hold, and well-formed worlds exclude it. *)
Inductive exn : Type :=
  | ValueError
  | IndexError
  | InvalidRef.

Inductive result (A : Type) : Type :=
  | Ok (a : A) (w : World)
  | Raise (e : exn)
  | OutOfFuel.
Arguments Ok {A} a w.
Arguments Raise {A} e.
Arguments OutOfFuel {A}.

Definition M (A : Type) : Type := World → result A.

Definition ret {A} (a : A) : M A := λ w, Ok a w.

Definition bind {A B} (m : M A) (k : A → M B) : M B :=
  λ w, match m w with
       | Ok a w' => k a w'
       | Raise e => Raise e
       | OutOfFuel => OutOfFuel
       end.

Definition raise {A} (e : exn) : M A := λ _, Raise e.

Declare Scope py_scope.
Delimit Scope py_scope with py.
Notation "x <- m ;; k" := (bind m (λ x, k))
  (at level 100, m at next level, right associativity) : py_scope.
Notation "m ;;; k" := (bind m (λ _, k))
  (at level 100, right associativity) : py_scope.
Local Open Scope py_scope.

(** ** The store: list objects *)

(** [[]] or any list display: a new object. *)
Definition alloc (v : list Position) : M loc :=
  λ w, let l := fresh (dom (heap w)) in Ok l (upd_heap <[l := v]> w).

Definition deref (l : loc) : M (list Position) :=
  λ w, match heap w !! l with
       | Some v => Ok v w
       | None => Raise InvalidRef
       end.

Definition assign (l : loc) (v : list Position) : M unit :=
  λ w, Ok tt (upd_heap <[l := v]> w).

(** [x in l] *)
Definition list_contains (x : Position) (l : loc) : M bool :=
  v <- deref l ;; ret (bool_decide (x ∈ v)).

(** [l.append(x)] *)
Definition list_append (l : loc) (x : Position) : M unit :=
  v <- deref l ;; assign l (v ++ [x]).

(** The list without the first element equal to [x]; [None] when there is
    none. *)
Fixpoint remove_first (x : Position) (v : list Position) : option (list Position) :=
  match v with
  | [] => None
  | y :: v' =>
      if decide (y = x) then Some v'
      else match remove_first x v' with
           | Some v'' => Some (y :: v'')
           | None => None
           end
  end.

(** [l.remove(x)]: removes the first occurrence and raises [ValueError] when
    [x] is not in the list. *)
Definition list_remove (l : loc) (x : Position) : M unit :=
  v <- deref l ;;
  match remove_first x v with
  | Some v' => assign l v'
  | None => raise ValueError
  end.

(** [len(l)] *)
Definition list_len (l : loc) : M Z :=
  v <- deref l ;; ret (Z.of_nat (length v)).

(** ** The module [random] *)

(** [random.randint(a, b)]: an integer [N] with [a <= N <= b], picked by the
    next draw of the tape; [ValueError] (empty range) when [b < a]. *)
Definition randint (a b : Z) : M Z :=
  λ w, if b <? a then Raise ValueError
       else Ok (a + tape w (cursor w) mod (b - a + 1)) (advance w).

(** [random.choice(seq)]: an element of [seq], picked by the next draw;
    [IndexError] on an empty sequence. *)
Definition choice {A} (xs : list A) : M A :=
  λ w, match xs !! Z.to_nat (tape w (cursor w) mod Z.of_nat (length xs)) with
       | Some x => Ok x (advance w)
       | None => Raise IndexError
       end.

(** [for _ in range(n): body] *)
Fixpoint for_range (n : nat) (body : M unit) : M unit :=
  match n with
  | O => ret tt
  | S n' => body ;;; for_range n' body
  end.

(** ** class Casa *)

Module Casa.

Record t : Type := mk {
  grid_size : Z * Z;
  dirt_positions : loc
}.

(** The body of the [for] loop of [_generate_dirt_spots]. *)
Definition place_spot (self_grid_size : Z * Z) (dirt_spots : loc) : M unit :=
  r <- randint 0 (fst self_grid_size - 1) ;;
  c <- randint 0 (snd self_grid_size - 1) ;;
  let spot := (r, c) in
  present <- list_contains spot dirt_spots ;;
  if negb present then list_append dirt_spots spot else ret tt.

(** [_generate_dirt_spots(self, num_dirt_spots)]; of [self] it reads
    [grid_size] only.  [range] of a non-positive number is empty. *)
Definition _generate_dirt_spots (self_grid_size : Z * Z) (num_dirt_spots : Z)
    : M loc :=
  dirt_spots <- alloc [] ;;
  for_range (Z.to_nat num_dirt_spots) (place_spot self_grid_size dirt_spots) ;;;
  ret dirt_spots.

Definition __init__ (grid_size : Z * Z) (num_dirt_spots : Z) : M t :=
  dirt <- _generate_dirt_spots grid_size num_dirt_spots ;;
  ret {| grid_size := grid_size; dirt_positions := dirt |}.

(** Returns the attribute itself: the list object, not a copy. *)
Definition get_dirt_positions (self : t) : M loc :=
  ret (dirt_positions self).

End Casa.

(** ** class Rumba *)

Module Rumba.

(** The robot object.  [position] is rebound by [move]; the object is
    threaded through the calls, its two lists stay in the store. *)
Record t : Type := mk {
  grid_size : Z * Z;
  dirt_positions : loc;
  position : Position;
  cleaned_spots : loc
}.

Definition set_position (p : Position) (self : t) : t :=
  {| grid_size := grid_size self; dirt_positions := dirt_positions self;
     position := p; cleaned_spots := cleaned_spots self |}.

(** [dirt_positions] is [None] or a list; [x if x else []] keeps a
    non-empty list (the same object) and makes a new empty list for
    [None] and for an empty list. *)
Definition __init__ (grid_size : Z * Z) (dirt_positions : option loc) : M t :=
  dirt <- match dirt_positions with
          | Some l =>
              v <- deref l ;;
              match v with
              | [] => alloc []
              | _ :: _ => ret l
              end
          | None => alloc []
          end ;;
  r <- randint 0 (fst grid_size - 1) ;;
  c <- randint 0 (snd grid_size - 1) ;;
  cleaned <- alloc [] ;;
  ret {| grid_size := grid_size; dirt_positions := dirt;
         position := (r, c); cleaned_spots := cleaned |}.

(** Up, down, left, right. *)
Definition directions : list (Z * Z) := [(-1, 0); (1, 0); (0, -1); (0, 1)].

(** The bounds check of [move], on one coordinate. *)
Definition clamp (dimension x : Z) : Z := Z.max 0 (Z.min (dimension - 1) x).

Definition move (self : t) : M t :=
  move_dir <- choice directions ;;
  let new_position := (fst (position self) + fst move_dir,
                       snd (position self) + snd move_dir) in
  let new_position := (clamp (fst (grid_size self)) (fst new_position),
                       clamp (snd (grid_size self)) (snd new_position)) in
  let self := set_position new_position self in
  dirty <- list_contains (position self) (dirt_positions self) ;;
  (if dirty : bool then
     list_remove (dirt_positions self) (position self) ;;;
     list_append (cleaned_spots self) (position self)
   else ret tt) ;;;
  ret self.

Definition is_clean (self : t) : M bool :=
  n <- list_len (dirt_positions self) ;; ret (n =? 0).

(** The dict holds the attributes themselves: the two list objects. *)
Definition get_state (self : t) : M Snapshot :=
  ret {| snap_position := position self;
         snap_dirt_positions := dirt_positions self;
         snap_cleaned_spots := cleaned_spots self |}.

End Rumba.

(** ** [plot_grid] and the main loop *)

(** The plot reads the position and the two lists of the dict and shows
    them; of matplotlib only the fact that a frame was shown is kept. *)
Definition plot_grid (grid_size : Z * Z) (rumba_state : Snapshot) : M unit :=
  dirt <- deref (snap_dirt_positions rumba_state) ;;
  cleaned <- deref (snap_cleaned_spots rumba_state) ;;
  λ w, Ok tt (show {| frame_grid := grid_size;
                      frame_position := snap_position rumba_state;
                      frame_dirt := dirt; frame_cleaned := cleaned |} w).

(** [while not rumba.is_clean() and steps < max_steps: ...].  A [while] has
    no structural bound, so the loop takes fuel: one unit per evaluation of
    the condition. *)
Fixpoint main_loop (fuel : nat) (grid_size : Z * Z) (max_steps : Z)
    (rumba : Rumba.t) (steps : Z) : M (Rumba.t * Z) :=
  match fuel with
  | O => λ _, OutOfFuel
  | S fuel' =>
      clean <- Rumba.is_clean rumba ;;
      if negb clean && (steps <? max_steps) then
        rumba <- Rumba.move rumba ;;
        state <- Rumba.get_state rumba ;;
        plot_grid grid_size state ;;;
        main_loop fuel' grid_size max_steps rumba (steps + 1)
      else ret (rumba, steps)
  end.

(** What the final [if] prints: which of the two messages ([success]) and
    the step counter. *)
Record Outcome : Type := mkOutcome {
  success : bool;
  steps_taken : Z
}.

(** The body of [if __name__ == "__main__"], with its three constants as
    parameters. *)
Definition run (fuel : nat) (grid_size : Z * Z) (num_dirt_spots max_steps : Z)
    : M Outcome :=
  casa <- Casa.__init__ grid_size num_dirt_spots ;;
  dirt <- Casa.get_dirt_positions casa ;;
  rumba <- Rumba.__init__ grid_size (Some dirt) ;;
  final <- main_loop fuel grid_size max_steps rumba 0 ;;
  clean <- Rumba.is_clean (fst final) ;;
  ret {| success := clean; steps_taken := snd final |}.

(** The script as it stands: a 10 x 10 grid, 8 dirt spots, 100 steps. *)
Definition main (fuel : nat) : M Outcome := run fuel (10, 10) 8 100.

(** ** Specification vocabulary *)

(** [n] calls of [move] in a row. *)
Fixpoint steps (n : nat) (self : Rumba.t) : M Rumba.t :=
  match n with
  | O => ret self
  | S n' => self' <- Rumba.move self ;; steps n' self'
  end.

Definition in_bounds (grid_size : Z * Z) (p : Position) : Prop :=
  0 <= fst p < fst grid_size ∧ 0 <= snd p < snd grid_size.

(** [p'] is [p] or one of its four neighbours: one coordinate is the same
    and the other differs by at most 1. *)
Definition unit_displacement (p p' : Position) : Prop :=
  ((fst p' = fst p ∧ Z.abs (snd p' - snd p) <= 1) ∨
   (snd p' = snd p ∧ Z.abs (fst p' - fst p) <= 1)) ∧
  Z.abs (fst p' - fst p) + Z.abs (snd p' - snd p) <= 1.

(** The robot's two lists are objects of the store, and different ones (as
    [Rumba.__init__] makes them). *)
Definition rumba_wf (self : Rumba.t) (w : World) : Prop :=
  is_Some (heap w !! Rumba.dirt_positions self) ∧
  is_Some (heap w !! Rumba.cleaned_spots self) ∧
  Rumba.dirt_positions self ≠ Rumba.cleaned_spots self.

(** Where [move] lands when it draws direction [d]. *)
Definition target (self : Rumba.t) (d : Z * Z) : Position :=
  (Rumba.clamp (fst (Rumba.grid_size self)) (fst (Rumba.position self) + fst d),
   Rumba.clamp (snd (Rumba.grid_size self)) (snd (Rumba.position self) + snd d)).

(** The store after a cleaning [move]: the dirt list lost [p], the cleaned
    list gained it. *)
Definition cleaned_heap (self : Rumba.t) (ds' cs : list Position) (p : Position)
    (h : gmap loc (list Position)) : gmap loc (list Position) :=
  <[Rumba.cleaned_spots self := cs ++ [p]]> (<[Rumba.dirt_positions self := ds']> h).

(** A list argument is [None] or a reference to an object of the store. *)
Definition list_arg_ok (arg : option loc) (w : World) : Prop :=
  match arg with
  | Some l => is_Some (heap w !! l)
  | None => True
  end.

(** All cells of a grid, row by row. *)
Definition cells (grid_size : Z * Z) : list Position :=
  list_prod (seqZ 0 (fst grid_size)) (seqZ 0 (snd grid_size)).

(** The next draws of [random.choice] in [move] are the directions [ds], in
    this order. *)
Fixpoint scripted (w : World) (ds : list (Z * Z)) : Prop :=
  match ds with
  | [] => True
  | d :: ds' => choice Rumba.directions w = Ok d (advance w) ∧ scripted (advance w) ds'
  end.

(** The spot that an iteration of the generator's loop draws when the next
    draw of the tape [t] is the one at index [i]: row from draw [i], column
    from draw [i + 1]. *)
Definition spot_at (grid_size : Z * Z) (t : nat → Z) (i : nat) : Position :=
  (t i mod fst grid_size, t (S i) mod snd grid_size).

(** The spots that [n] iterations draw, in order, from world [w] on. *)
Definition drawn_spots (grid_size : Z * Z) (w : World) (n : nat) : list Position :=
  (λ k, spot_at grid_size (tape w) (cursor w + 2 * k)%nat) <$> seq 0 n.

(** The list after the spots [spots] were offered to it one by one, each
    appended unless it is there already. *)
Fixpoint collect (acc spots : list Position) : list Position :=
  match spots with
  | [] => acc
  | s :: rest => collect (if bool_decide (s ∈ acc) then acc else acc ++ [s]) rest
  end.

Definition manhattan (p q : Position) : Z :=
  Z.abs (fst p - fst q) + Z.abs (snd p - snd q).

(** ** Example worlds *)

(** A world with an empty store whose tape draws [z] forever. *)
Definition constant_world (z : Z) : World :=
  {| heap := ∅; tape := λ _, z; cursor := 0%nat; plots := [] |}.

(** A robot at [p], with its dirt list at location 0 and its cleaned list at
    location 1. *)
Definition example_robot (grid_size : Z * Z) (p : Position) : Rumba.t :=
  {| Rumba.grid_size := grid_size; Rumba.dirt_positions := 0%nat;
     Rumba.position := p; Rumba.cleaned_spots := 1%nat |}.

(** A house whose dirt list is at location 0. *)
Definition example_casa (grid_size : Z * Z) : Casa.t :=
  {| Casa.grid_size := grid_size; Casa.dirt_positions := 0%nat |}.

(** A world for [example_robot]: dirt list [dirt], nothing cleaned yet. *)
Definition example_world (dirt : list Position) (draws : nat → Z) : World :=
  {| heap := <[1%nat := []]> (<[0%nat := dirt]> ∅);
     tape := draws; cursor := 0%nat; plots := [] |}.

(** Draws that make [random.choice] pick up, up, left, left (0, 0, 2, 2). *)
Definition up_up_left_left (n : nat) : Z := if (n <? 2)%nat then 0 else 2.

(** A caller takes the dict of [get_state] and appends [p] to both of its
    lists, then the robot's own attributes are read. *)
Definition mutate_snapshot (self : Rumba.t) (p : Position)
    : M (list Position * list Position) :=
  state <- Rumba.get_state self ;;
  list_append (snap_dirt_positions state) p ;;;
  list_append (snap_cleaned_spots state) p ;;;
  dirt <- deref (Rumba.dirt_positions self) ;;
  cleaned <- deref (Rumba.cleaned_spots self) ;;
  ret (dirt, cleaned).

(** The start of the main script followed by one [move]; the house's own
    attribute is read before the robot exists and after it has moved. *)
Definition handoff_then_move (grid_size : Z * Z) (num_dirt_spots : Z)
    : M (list Position * list Position) :=
  casa <- Casa.__init__ grid_size num_dirt_spots ;;
  before <- deref (Casa.dirt_positions casa) ;;
  dirt <- Casa.get_dirt_positions casa ;;
  rumba <- Rumba.__init__ grid_size (Some dirt) ;;
  Rumba.move rumba ;;;
  after <- deref (Casa.dirt_positions casa) ;;
  ret (before, after).

(** * Proofs *)

(** ** The monad and the store *)

Lemma bind_Ok {A B} (m : M A) (k : A → M B) w a w' :
  m w = Ok a w' → bind m k w = k a w'.
Proof. intros H. unfold bind. by rewrite H. Qed.

Lemma bind_Ok_inv {A B} (m : M A) (k : A → M B) w b w'' :
  bind m k w = Ok b w'' → ∃ a w', m w = Ok a w' ∧ k a w' = Ok b w''.
Proof. unfold bind. destruct (m w) as [a w'| |]; [eauto | done | done]. Qed.

Lemma bind_Raise {A B} (m : M A) (k : A → M B) w e :
  m w = Raise e → bind m k w = Raise e.
Proof. intros H. unfold bind. by rewrite H. Qed.

Lemma deref_Ok l v w : heap w !! l = Some v → deref l w = Ok v w.
Proof. intros H. unfold deref. by rewrite H. Qed.

Lemma list_contains_Ok x l v w :
  heap w !! l = Some v → list_contains x l w = Ok (bool_decide (x ∈ v)) w.
Proof. intros H. unfold list_contains. by rewrite (bind_Ok _ _ _ _ _ (deref_Ok _ _ _ H)). Qed.

Lemma list_append_Ok l x v w :
  heap w !! l = Some v → list_append l x w = Ok tt (upd_heap <[l := v ++ [x]]> w).
Proof. intros H. unfold list_append. by rewrite (bind_Ok _ _ _ _ _ (deref_Ok _ _ _ H)). Qed.

Lemma list_remove_Ok l x v v' w :
  heap w !! l = Some v → remove_first x v = Some v' →
  list_remove l x w = Ok tt (upd_heap <[l := v']> w).
Proof.
  intros H Hr. unfold list_remove.
  rewrite (bind_Ok _ _ _ _ _ (deref_Ok _ _ _ H)). by rewrite Hr.
Qed.

Lemma list_len_Ok l v w :
  heap w !! l = Some v → list_len l w = Ok (Z.of_nat (length v)) w.
Proof. intros H. unfold list_len. by rewrite (bind_Ok _ _ _ _ _ (deref_Ok _ _ _ H)). Qed.

Lemma alloc_fresh w : heap w !! fresh (dom (heap w)) = None.
Proof. apply not_elem_of_dom, is_fresh. Qed.

(** ** [remove_first] *)

Lemma remove_first_None x (v : list Position) : remove_first x v = None ↔ x ∉ v.
Proof.
  induction v as [|y v IH]; simpl.
  - split; [intros _; apply not_elem_of_nil | done].
  - rewrite not_elem_of_cons. destruct (decide (y = x)) as [->|Hne].
    + split; [done | intros [? _]; done].
    + destruct (remove_first x v) eqn:E.
      * split; [done |]. intros [_ Hn]. apply IH in Hn. done.
      * split; [| done]. intros _. split; [congruence | by apply IH].
Qed.

Lemma remove_first_Some x (v v' : list Position) :
  remove_first x v = Some v' →
  x ∈ v ∧ length v = S (length v') ∧ v ≡ₚ x :: v'.
Proof.
  revert v'. induction v as [|y v IH]; simpl; intros v' H; [done |].
  destruct (decide (y = x)) as [->|Hne].
  - injection H as <-. split; [left | done].
  - destruct (remove_first x v) as [v''|] eqn:E; [| done].
    injection H as <-. destruct (IH _ eq_refl) as (Hin & Hlen & Hp).
    split; [by right |]. split; [simpl; lia |].
    rewrite Hp. apply Permutation_swap.
Qed.

Lemma remove_first_elem x (v : list Position) : x ∈ v → is_Some (remove_first x v).
Proof.
  intros Hin. destruct (remove_first x v) eqn:E; [eauto |].
  apply remove_first_None in E. done.
Qed.

Lemma remove_first_NoDup x (v v' : list Position) :
  NoDup v → remove_first x v = Some v' → NoDup v' ∧ x ∉ v'.
Proof.
  intros Hnd Hr. apply remove_first_Some in Hr as (_ & _ & Hp).
  rewrite Hp in Hnd. apply NoDup_cons in Hnd as [? ?]. done.
Qed.

(** ** [random] *)

Lemma randint_Ok a b w :
  a <= b →
  ∃ n, randint a b w = Ok n (advance w) ∧ a <= n <= b.
Proof.
  intros Hab. unfold randint.
  destruct (b <? a) eqn:E; [apply Z.ltb_lt in E; lia |].
  eexists. split; [done |].
  pose proof (Z.mod_pos_bound (tape w (cursor w)) (b - a + 1)). lia.
Qed.

Lemma randint_empty a b w : b < a → randint a b w = Raise ValueError.
Proof. intros H. unfold randint. apply Z.ltb_lt in H. by rewrite H. Qed.

Lemma choice_directions w :
  ∃ d, d ∈ Rumba.directions ∧ choice Rumba.directions w = Ok d (advance w).
Proof.
  unfold choice. simpl length.
  pose proof (Z.mod_pos_bound (tape w (cursor w)) 4 ltac:(lia)) as Hb.
  change (Z.of_nat 4) with 4.
  destruct (Rumba.directions !! Z.to_nat (tape w (cursor w) `mod` 4)) as [d|] eqn:E.
  - exists d. split; [| done]. by eapply list_elem_of_lookup_2.
  - apply lookup_ge_None in E. simpl in E. lia.
Qed.

Lemma choice_Ok_inv {A} (xs : list A) w x w' :
  choice xs w = Ok x w' → x ∈ xs ∧ w' = advance w.
Proof.
  unfold choice. destruct (xs !! _) as [y|] eqn:E; [| done].
  intros [= <- <-]. split; [by eapply list_elem_of_lookup_2 | done].
Qed.

(** ** One [move] *)

Lemma move_spec self w ds cs d :
  heap w !! Rumba.dirt_positions self = Some ds →
  heap w !! Rumba.cleaned_spots self = Some cs →
  Rumba.dirt_positions self ≠ Rumba.cleaned_spots self →
  choice Rumba.directions w = Ok d (advance w) →
  Rumba.move self w =
    Ok (Rumba.set_position (target self d) self)
       (match remove_first (target self d) ds with
        | Some ds' => upd_heap (cleaned_heap self ds' cs (target self d)) (advance w)
        | None => advance w
        end).
Proof.
  intros Hd Hc Hne Hch. unfold Rumba.move.
  rewrite (bind_Ok _ _ _ _ _ Hch). fold (target self d). cbn zeta.
  change (Rumba.position (Rumba.set_position (target self d) self)) with (target self d).
  change (Rumba.dirt_positions (Rumba.set_position (target self d) self))
    with (Rumba.dirt_positions self).
  change (Rumba.cleaned_spots (Rumba.set_position (target self d) self))
    with (Rumba.cleaned_spots self).
  rewrite (bind_Ok _ _ _ _ _ (list_contains_Ok (target self d) _ ds (advance w) Hd)).
  destruct (remove_first (target self d) ds) as [ds'|] eqn:E.
  - rewrite bool_decide_eq_true_2 by (by apply remove_first_Some in E as [? _]).
    erewrite bind_Ok; [reflexivity |].
    erewrite bind_Ok; [| by eapply list_remove_Ok].
    erewrite list_append_Ok.
    + reflexivity.
    + simpl. by rewrite lookup_insert_ne.
  - rewrite bool_decide_eq_false_2 by (by apply remove_first_None).
    reflexivity.
Qed.

Lemma clamp_in_range dimension x : 1 <= dimension → 0 <= Rumba.clamp dimension x < dimension.
Proof. unfold Rumba.clamp. lia. Qed.

Lemma clamp_inside dimension x : 0 <= x < dimension → Rumba.clamp dimension x = x.
Proof. unfold Rumba.clamp. lia. Qed.

Lemma clamp_near dimension x d :
  0 <= x < dimension → -1 <= d <= 1 → Z.abs (Rumba.clamp dimension (x + d) - x) <= 1.
Proof. unfold Rumba.clamp. lia. Qed.

Lemma direction_cases d :
  d ∈ Rumba.directions → d = (-1, 0) ∨ d = (1, 0) ∨ d = (0, -1) ∨ d = (0, 1).
Proof.
  unfold Rumba.directions. rewrite !elem_of_cons, elem_of_nil. tauto.
Qed.

(** What one [move] does to a well-formed robot, by cases on whether it
    lands on dirt. *)
Lemma move_cases self w ds cs :
  heap w !! Rumba.dirt_positions self = Some ds →
  heap w !! Rumba.cleaned_spots self = Some cs →
  Rumba.dirt_positions self ≠ Rumba.cleaned_spots self →
  ∃ d w',
    (d ∈ Rumba.directions) ∧
    choice Rumba.directions w = Ok d (advance w) ∧
    Rumba.move self w = Ok (Rumba.set_position (target self d) self) w' ∧
    cursor w' = S (cursor w) ∧ tape w' = tape w ∧ plots w' = plots w ∧
    (((target self d ∉ ds) ∧ heap w' = heap w) ∨
     (∃ ds', remove_first (target self d) ds = Some ds' ∧
             heap w' = cleaned_heap self ds' cs (target self d) (heap w))).
Proof.
  intros Hd Hc Hne. destruct (choice_directions w) as (d & Hin & Hch).
  exists d. eexists. split; [done |]. split; [done |].
  split; [by apply (move_spec self w ds cs d) |].
  destruct (remove_first (target self d) ds) as [ds'|] eqn:E; simpl.
  - repeat split; try done. right. eauto.
  - repeat split; try done. left. split; [by apply remove_first_None | done].
Qed.

Lemma cleaned_heap_dirt self ds' cs p h :
  Rumba.dirt_positions self ≠ Rumba.cleaned_spots self →
  cleaned_heap self ds' cs p h !! Rumba.dirt_positions self = Some ds'.
Proof.
  intros Hne. unfold cleaned_heap.
  rewrite lookup_insert_ne by done. apply lookup_insert_eq.
Qed.

Lemma cleaned_heap_cleaned self ds' cs p h :
  cleaned_heap self ds' cs p h !! Rumba.cleaned_spots self = Some (cs ++ [p]).
Proof. unfold cleaned_heap. apply lookup_insert_eq. Qed.

Lemma cleaned_heap_other self ds' cs p h l :
  l ≠ Rumba.dirt_positions self → l ≠ Rumba.cleaned_spots self →
  cleaned_heap self ds' cs p h !! l = h !! l.
Proof.
  intros H1 H2. unfold cleaned_heap. by rewrite !lookup_insert_ne.
Qed.

(** The lists of the robot before and after one [move]. *)
Lemma move_lists self w ds cs :
  heap w !! Rumba.dirt_positions self = Some ds →
  heap w !! Rumba.cleaned_spots self = Some cs →
  Rumba.dirt_positions self ≠ Rumba.cleaned_spots self →
  ∃ d w' ds' cs',
    (d ∈ Rumba.directions) ∧
    choice Rumba.directions w = Ok d (advance w) ∧
    Rumba.move self w = Ok (Rumba.set_position (target self d) self) w' ∧
    heap w' !! Rumba.dirt_positions self = Some ds' ∧
    heap w' !! Rumba.cleaned_spots self = Some cs' ∧
    (((target self d ∉ ds) ∧ ds' = ds ∧ cs' = cs) ∨
     (remove_first (target self d) ds = Some ds' ∧ cs' = cs ++ [target self d])).
Proof.
  intros Hd Hc Hne.
  destruct (move_cases self w ds cs Hd Hc Hne)
    as (d & w' & Hin & Hch & Hmv & _ & _ & _ & [[Hnot Hh] | (ds' & Hr & Hh)]).
  - exists d, w', ds, cs. rewrite Hh. repeat split; try done. by left.
  - exists d, w', ds', (cs ++ [target self d]). rewrite Hh.
    split; [done |]. split; [done |]. split; [done |].
    split; [by apply cleaned_heap_dirt |].
    split; [apply cleaned_heap_cleaned |]. by right.
Qed.

Lemma rumba_wf_lists self w :
  rumba_wf self w →
  ∃ ds cs, heap w !! Rumba.dirt_positions self = Some ds ∧
           heap w !! Rumba.cleaned_spots self = Some cs ∧
           Rumba.dirt_positions self ≠ Rumba.cleaned_spots self.
Proof. intros ([ds Hd] & [cs Hc] & Hne). eauto. Qed.

Lemma move_wf self w :
  rumba_wf self w →
  ∃ d w',
    (d ∈ Rumba.directions) ∧
    choice Rumba.directions w = Ok d (advance w) ∧
    Rumba.move self w = Ok (Rumba.set_position (target self d) self) w' ∧
    rumba_wf (Rumba.set_position (target self d) self) w'.
Proof.
  intros Hwf. destruct (rumba_wf_lists _ _ Hwf) as (ds & cs & Hd & Hc & Hne).
  destruct (move_lists self w ds cs Hd Hc Hne)
    as (d & w' & ds' & cs' & Hin & Hch & Hmv & Hd' & Hc' & _).
  exists d, w'. repeat split; try done; simpl; eauto.
Qed.

(** A property kept by every [move] holds after any number of them. *)
Lemma steps_invariant (I : Rumba.t → World → Prop) :
  (∀ self w, I self w → ∃ self' w', Rumba.move self w = Ok self' w' ∧ I self' w') →
  ∀ n self w, I self w → ∃ self' w', steps n self w = Ok self' w' ∧ I self' w'.
Proof.
  intros Hstep n. induction n as [|n IH]; intros self w HI; simpl.
  - by exists self, w.
  - destruct (Hstep self w HI) as (self1 & w1 & Hmv & HI1).
    destruct (IH self1 w1 HI1) as (self' & w' & Hst & HI').
    exists self', w'. split; [| done]. by rewrite (bind_Ok _ _ _ _ _ Hmv).
Qed.

Lemma steps_S_inv n self w self'' w'' :
  steps (S n) self w = Ok self'' w'' →
  ∃ self' w', Rumba.move self w = Ok self' w' ∧ steps n self' w' = Ok self'' w''.
Proof. simpl. apply bind_Ok_inv. Qed.

Lemma target_in_bounds self d :
  1 <= fst (Rumba.grid_size self) → 1 <= snd (Rumba.grid_size self) →
  in_bounds (Rumba.grid_size self) (target self d).
Proof.
  intros Hr Hc. unfold in_bounds, target. simpl.
  split; by apply clamp_in_range.
Qed.

Lemma move_valid grid_size self w :
  1 <= fst grid_size → 1 <= snd grid_size →
  rumba_wf self w → Rumba.grid_size self = grid_size →
  ∃ self' w',
    Rumba.move self w = Ok self' w' ∧
    rumba_wf self' w' ∧ Rumba.grid_size self' = grid_size ∧
    in_bounds grid_size (Rumba.position self').
Proof.
  intros Hr Hc Hwf Hg.
  destruct (move_wf self w Hwf) as (d & w' & _ & _ & Hmv & Hwf').
  eexists _, w'. split; [exact Hmv |]. split; [done |]. split; [done |].
  simpl. rewrite <- Hg. apply target_in_bounds; by rewrite Hg.
Qed.

(** ** The single step *)

(** C5. [move] clamps each coordinate of the candidate position on its own to
    [0, dimension - 1]: off the grid on an axis, the robot is put on that
    axis's boundary.  From (0,0) on a 5 x 5 grid, direction up gives (0,0).
    The move is committed all the same: the draw is consumed and an
    iteration of the main loop around it counts one step. *)
Theorem move_clamps_each_coordinate self w d :
  rumba_wf self w →
  choice Rumba.directions w = Ok d (advance w) →
  ∃ self' w',
    Rumba.move self w = Ok self' w' ∧
    fst (Rumba.position self') =
      Z.max 0 (Z.min (fst (Rumba.grid_size self) - 1) (fst (Rumba.position self) + fst d)) ∧
    snd (Rumba.position self') =
      Z.max 0 (Z.min (snd (Rumba.grid_size self) - 1) (snd (Rumba.position self) + snd d)) ∧
    (1 <= fst (Rumba.grid_size self) →
     (fst (Rumba.position self) + fst d < 0 → fst (Rumba.position self') = 0) ∧
     (fst (Rumba.grid_size self) - 1 < fst (Rumba.position self) + fst d →
      fst (Rumba.position self') = fst (Rumba.grid_size self) - 1)) ∧
    (1 <= snd (Rumba.grid_size self) →
     (snd (Rumba.position self) + snd d < 0 → snd (Rumba.position self') = 0) ∧
     (snd (Rumba.grid_size self) - 1 < snd (Rumba.position self) + snd d →
      snd (Rumba.position self') = snd (Rumba.grid_size self) - 1)) ∧
    (Rumba.grid_size self = (5, 5) → Rumba.position self = (0, 0) → d = (-1, 0) →
     Rumba.position self' = (0, 0)) ∧
    cursor w' = S (cursor w) ∧
    (∀ fuel max_steps n,
       Rumba.is_clean self w = Ok false w → n < max_steps →
       main_loop (S fuel) (Rumba.grid_size self) max_steps self n w =
       (state <- Rumba.get_state self' ;;
        plot_grid (Rumba.grid_size self) state ;;;
        main_loop fuel (Rumba.grid_size self) max_steps self' (n + 1)) w').
Proof.
  intros Hwf Hch. destruct (rumba_wf_lists _ _ Hwf) as (ds & cs & Hd & Hc & Hne).
  pose proof (move_spec self w ds cs d Hd Hc Hne Hch) as Hmv.
  eexists _, _. split; [exact Hmv |].
  split; [reflexivity |]. split; [reflexivity |].
  split; [unfold target, Rumba.clamp; simpl; lia |].
  split; [unfold target, Rumba.clamp; simpl; lia |].
  split.
  { intros Hg Hp ->. unfold target. simpl. rewrite Hg, Hp. reflexivity. }
  split.
  { by destruct (remove_first (target self d) ds). }
  intros fuel max_steps n Hcl Hlt.
  cbn [main_loop]. rewrite (bind_Ok _ _ _ _ _ Hcl).
  replace (n <? max_steps) with true by (symmetry; by apply Z.ltb_lt).
  cbn [negb andb]. by rewrite (bind_Ok _ _ _ _ _ Hmv).
Qed.

Lemma is_clean_inv self w b w' :
  Rumba.is_clean self w = Ok b w' →
  w' = w ∧ ∃ ds, heap w !! Rumba.dirt_positions self = Some ds ∧
                 b = (Z.of_nat (length ds) =? 0).
Proof.
  unfold Rumba.is_clean, list_len, bind, deref, ret.
  destruct (heap w !! Rumba.dirt_positions self) as [ds|]; [| done].
  intros [= <- <-]. eauto.
Qed.

Lemma is_clean_Ok self w ds :
  heap w !! Rumba.dirt_positions self = Some ds →
  Rumba.is_clean self w = Ok (Z.of_nat (length ds) =? 0) w.
Proof.
  intros H. unfold Rumba.is_clean. by rewrite (bind_Ok _ _ _ _ _ (list_len_Ok _ _ _ H)).
Qed.

(** C4. One [move] of a robot whose dirt list has no duplicates leaves the
    length of the dirt list as it is or takes exactly one off, and in that
    case appends the removed position (the one it moved to) to the cleaned
    list; so after any [n] moves from a state with an empty cleaned list,
    the length of the cleaned list is the initial dirt count minus the
    current one. *)
Theorem move_cleans_at_most_one self w ds cs :
  heap w !! Rumba.dirt_positions self = Some ds →
  heap w !! Rumba.cleaned_spots self = Some cs →
  Rumba.dirt_positions self ≠ Rumba.cleaned_spots self →
  NoDup ds →
  (∃ self' w' ds' cs',
     Rumba.move self w = Ok self' w' ∧
     heap w' !! Rumba.dirt_positions self' = Some ds' ∧
     heap w' !! Rumba.cleaned_spots self' = Some cs' ∧
     NoDup ds' ∧
     ((ds' = ds ∧ cs' = cs) ∨
      (length ds = S (length ds') ∧
       ds ≡ₚ Rumba.position self' :: ds' ∧
       cs' = cs ++ [Rumba.position self']))) ∧
  (cs = [] →
   ∀ n, ∃ self' w' ds' cs',
     steps n self w = Ok self' w' ∧
     heap w' !! Rumba.dirt_positions self' = Some ds' ∧
     heap w' !! Rumba.cleaned_spots self' = Some cs' ∧
     Z.of_nat (length cs') = Z.of_nat (length ds) - Z.of_nat (length ds')).
Proof.
  intros Hd Hc Hne Hnd. split.
  - destruct (move_lists self w ds cs Hd Hc Hne)
      as (d & w' & ds' & cs' & _ & _ & Hmv & Hd' & Hc' & Hcase).
    exists (Rumba.set_position (target self d) self), w', ds', cs'.
    split; [done |]. split; [done |]. split; [done |].
    destruct Hcase as [(_ & -> & ->) | [Hr ->]].
    + split; [done |]. by left.
    + split; [by eapply remove_first_NoDup |]. right.
      apply remove_first_Some in Hr as (_ & Hlen & Hp). done.
  - intros -> n.
    pose (I := λ (r : Rumba.t) (v : World),
      Rumba.dirt_positions r = Rumba.dirt_positions self ∧
      Rumba.cleaned_spots r = Rumba.cleaned_spots self ∧
      ∃ ds' cs', heap v !! Rumba.dirt_positions r = Some ds' ∧
                 heap v !! Rumba.cleaned_spots r = Some cs' ∧
                 (length ds' + length cs' = length ds)%nat).
    assert (Hkeep : ∀ r v, I r v → ∃ r' v', Rumba.move r v = Ok r' v' ∧ I r' v').
    { intros r v (E1 & E2 & ds1 & cs1 & H1 & H2 & Hlen).
      assert (Hne1 : Rumba.dirt_positions r ≠ Rumba.cleaned_spots r) by congruence.
      destruct (move_lists r v ds1 cs1 H1 H2 Hne1)
        as (d & v' & ds2 & cs2 & _ & _ & Hmv & H1' & H2' & Hcase).
      eexists _, v'. split; [exact Hmv |].
      split; [done |]. split; [done |]. exists ds2, cs2.
      split; [done |]. split; [done |].
      destruct Hcase as [(_ & -> & ->) | [Hr ->]]; [done |].
      apply remove_first_Some in Hr as (_ & Hl & _).
      rewrite length_app. simpl. lia. }
    destruct (steps_invariant I Hkeep n self w) as (r & v & Hst & _ & _ & ds' & cs' & H1 & H2 & Hlen).
    { split; [done |]. split; [done |]. exists ds, []. simpl. split; [done |]. split; [done | lia]. }
    exists r, v, ds', cs'. repeat split; try done. lia.
Qed.

(** C6. Completion is absorbing: once [is_clean] answers true, any number of
    further moves leaves the dirt list empty ([is_clean] still true) and the
    cleaned list as it was. *)
Theorem clean_is_absorbing self w cs :
  rumba_wf self w →
  Rumba.is_clean self w = Ok true w →
  heap w !! Rumba.cleaned_spots self = Some cs →
  ∀ n, ∃ self' w',
    steps n self w = Ok self' w' ∧
    heap w' !! Rumba.dirt_positions self' = Some [] ∧
    Rumba.is_clean self' w' = Ok true w' ∧
    heap w' !! Rumba.cleaned_spots self' = Some cs.
Proof.
  intros (_ & _ & Hne) Hcl Hc n.
  apply is_clean_inv in Hcl as (_ & ds & Hd & Hlen).
  assert (ds = []) as ->.
  { destruct ds; [done |]. simpl in Hlen. discriminate. }
  pose (I := λ (r : Rumba.t) (v : World),
    Rumba.dirt_positions r ≠ Rumba.cleaned_spots r ∧
    heap v !! Rumba.dirt_positions r = Some [] ∧
    heap v !! Rumba.cleaned_spots r = Some cs).
  assert (Hkeep : ∀ r v, I r v → ∃ r' v', Rumba.move r v = Ok r' v' ∧ I r' v').
  { intros r v (Hne1 & H1 & H2).
    destruct (move_lists r v [] cs H1 H2 Hne1)
      as (d & v' & ds2 & cs2 & _ & _ & Hmv & H1' & H2' & Hcase).
    eexists _, v'. split; [exact Hmv |].
    destruct Hcase as [(_ & -> & ->) | [Hr _]]; [done | done]. }
  destruct (steps_invariant I Hkeep n self w) as (r & v & Hst & _ & H1 & H2); [done |].
  exists r, v. split; [done |]. split; [done |]. split; [| done].
  by rewrite (is_clean_Ok r v [] H1).
Qed.

(** [move] when the direction drawn leads to a cell without dirt. *)
Lemma move_miss self w ds cs d p :
  heap w !! Rumba.dirt_positions self = Some ds →
  heap w !! Rumba.cleaned_spots self = Some cs →
  Rumba.dirt_positions self ≠ Rumba.cleaned_spots self →
  choice Rumba.directions w = Ok d (advance w) →
  target self d = p → p ∉ ds →
  Rumba.move self w = Ok (Rumba.set_position p self) (advance w).
Proof.
  intros Hd Hc Hne Hch <- Hnot.
  rewrite (move_spec self w ds cs d Hd Hc Hne Hch).
  apply remove_first_None in Hnot. by rewrite Hnot.
Qed.

(** [move] when the direction drawn leads to a dirt cell. *)
Lemma move_hit self w ds ds' cs d p :
  heap w !! Rumba.dirt_positions self = Some ds →
  heap w !! Rumba.cleaned_spots self = Some cs →
  Rumba.dirt_positions self ≠ Rumba.cleaned_spots self →
  choice Rumba.directions w = Ok d (advance w) →
  target self d = p → remove_first p ds = Some ds' →
  Rumba.move self w =
    Ok (Rumba.set_position p self) (upd_heap (cleaned_heap self ds' cs p) (advance w)).
Proof.
  intros Hd Hc Hne Hch <- Hr.
  rewrite (move_spec self w ds cs d Hd Hc Hne Hch). by rewrite Hr.
Qed.

(** C8. On a 3 x 3 grid with dirt list [(0,0)] and the robot at (2,2), four
    moves that draw up, up, left, left leave the robot at (0,0), make
    [is_clean] true and the cleaned list [(0,0)]. *)
Theorem scripted_scenario self w :
  Rumba.grid_size self = (3, 3) →
  Rumba.position self = (2, 2) →
  heap w !! Rumba.dirt_positions self = Some [(0, 0)] →
  heap w !! Rumba.cleaned_spots self = Some [] →
  Rumba.dirt_positions self ≠ Rumba.cleaned_spots self →
  scripted w [(-1, 0); (-1, 0); (0, -1); (0, -1)] →
  ∃ self' w',
    steps 4 self w = Ok self' w' ∧
    Rumba.position self' = (0, 0) ∧
    Rumba.is_clean self' w' = Ok true w' ∧
    heap w' !! Rumba.cleaned_spots self' = Some [(0, 0)].
Proof.
  destruct self as [gs dp pos cl]. simpl. intros -> -> Hd Hc Hne (H1 & H2 & H3 & H4 & _).
  assert (Hfar : ∀ p : Position, p ≠ (0, 0) → p ∉ [(0, 0)]).
  { intros p Hp. rewrite elem_of_cons, elem_of_nil. tauto. }
  eexists _, _. split.
  { cbn [steps].
    erewrite bind_Ok;
      [| eapply (move_miss _ _ [(0, 0)] [] (-1, 0) (1, 2)); try done; by apply Hfar].
    erewrite bind_Ok;
      [| eapply (move_miss _ _ [(0, 0)] [] (-1, 0) (0, 2)); try done; by apply Hfar].
    erewrite bind_Ok;
      [| eapply (move_miss _ _ [(0, 0)] [] (0, -1) (0, 1)); try done; by apply Hfar].
    erewrite bind_Ok;
      [| eapply (move_hit _ _ [(0, 0)] [] [] (0, -1) (0, 0)); done].
    reflexivity. }
  split; [done |]. split.
  - apply (is_clean_Ok _ _ []). simpl. by apply cleaned_heap_dirt.
  - simpl. apply cleaned_heap_cleaned.
Qed.

(** ** The generator *)

Lemma alloc_Ok v w :
  ∃ l, alloc v w = Ok l (upd_heap <[l := v]> w) ∧ heap w !! l = None.
Proof. eexists. split; [reflexivity | apply alloc_fresh]. Qed.

(** A loop keeps an invariant indexed by the number of iterations done. *)
Lemma for_range_invariant (I : nat → World → Prop) (body : M unit) :
  (∀ k w, I k w → ∃ w', body w = Ok tt w' ∧ I (S k) w') →
  ∀ n k w, I k w → ∃ w', for_range n body w = Ok tt w' ∧ I (n + k)%nat w'.
Proof.
  intros Hbody n. induction n as [|n IH]; intros k w HI; simpl.
  - by exists w.
  - destruct (Hbody k w HI) as (w1 & Hb & HI1).
    destruct (IH (S k) w1 HI1) as (w' & Hf & HI').
    exists w'. split; [by rewrite (bind_Ok _ _ _ _ _ Hb) |].
    by replace (S (n + k)) with (n + S k)%nat by lia.
Qed.

Lemma in_bounds_cells grid_size p : in_bounds grid_size p → p ∈ cells grid_size.
Proof.
  destruct p as [r c]. intros [Hr Hc]. simpl in *.
  unfold cells. apply list_elem_of_In, in_prod; apply list_elem_of_In, elem_of_seqZ; lia.
Qed.

Lemma length_cells grid_size :
  0 <= fst grid_size → 0 <= snd grid_size →
  Z.of_nat (length (cells grid_size)) = fst grid_size * snd grid_size.
Proof.
  intros Hr Hc. unfold cells. rewrite length_prod, !length_seqZ. lia.
Qed.

(** Pigeonhole: distinct cells of a grid are at most as many as the grid has. *)
Lemma NoDup_in_bounds_length grid_size (ds : list Position) :
  1 <= fst grid_size → 1 <= snd grid_size →
  NoDup ds → Forall (in_bounds grid_size) ds →
  Z.of_nat (length ds) <= fst grid_size * snd grid_size.
Proof.
  intros Hr Hc Hnd Hall.
  rewrite <- length_cells by lia. apply inj_le.
  apply submseteq_length, NoDup_submseteq; [done |].
  intros p Hp. apply in_bounds_cells. by eapply Forall_forall in Hall.
Qed.

(** One iteration on a proper grid: a spot on the grid is drawn and appended
    unless it is in the list already. *)
Lemma place_spot_Ok grid_size l ds w :
  1 <= fst grid_size → 1 <= snd grid_size →
  heap w !! l = Some ds →
  ∃ spot,
    in_bounds grid_size spot ∧
    Casa.place_spot grid_size l w =
      Ok tt (if bool_decide (spot ∈ ds)
             then advance (advance w)
             else upd_heap <[l := ds ++ [spot]]> (advance (advance w))).
Proof.
  intros Hr Hc Hl. unfold Casa.place_spot.
  destruct (randint_Ok 0 (fst grid_size - 1) w ltac:(lia)) as (r & Hrand1 & Hr1).
  destruct (randint_Ok 0 (snd grid_size - 1) (advance w) ltac:(lia)) as (c & Hrand2 & Hc1).
  exists (r, c). split; [unfold in_bounds; simpl; lia |].
  rewrite (bind_Ok _ _ _ _ _ Hrand1), (bind_Ok _ _ _ _ _ Hrand2). cbn zeta.
  rewrite (bind_Ok _ _ _ _ _ (list_contains_Ok (r, c) l ds (advance (advance w)) Hl)).
  destruct (bool_decide ((r, c) ∈ ds)); simpl; [reflexivity |].
  by rewrite (list_append_Ok l (r, c) ds (advance (advance w)) Hl).
Qed.

(** What [_generate_dirt_spots] returns on a proper grid: a new list object,
    free of duplicates, of cells of the grid, with at most one element per
    iteration. *)
Lemma generate_dirt_spots_spec grid_size num_dirt_spots w :
  1 <= fst grid_size → 1 <= snd grid_size →
  ∃ l w' ds,
    Casa._generate_dirt_spots grid_size num_dirt_spots w = Ok l w' ∧
    heap w !! l = None ∧
    heap w' !! l = Some ds ∧
    NoDup ds ∧ Forall (in_bounds grid_size) ds ∧
    (length ds ≤ Z.to_nat num_dirt_spots)%nat ∧
    (∀ l', l' ≠ l → heap w' !! l' = heap w !! l') ∧
    tape w' = tape w ∧ plots w' = plots w ∧
    cursor w' = (cursor w + 2 * Z.to_nat num_dirt_spots)%nat.
Proof.
  intros Hr Hc. unfold Casa._generate_dirt_spots.
  destruct (alloc_Ok [] w) as (l & Hal & Hfresh).
  rewrite (bind_Ok _ _ _ _ _ Hal).
  pose (I := λ (k : nat) (v : World),
    ∃ ds, heap v !! l = Some ds ∧ NoDup ds ∧ Forall (in_bounds grid_size) ds ∧
          (length ds ≤ k)%nat ∧
          (∀ l', l' ≠ l → heap v !! l' = heap w !! l') ∧
          tape v = tape w ∧ plots v = plots w ∧
          cursor v = (cursor w + 2 * k)%nat).
  assert (Hbody : ∀ k v, I k v →
            ∃ v', Casa.place_spot grid_size l v = Ok tt v' ∧ I (S k) v').
  { intros k v (ds & Hl & Hnd & Hall & Hlen & Hoth & Ht & Hp & Hcur).
    destruct (place_spot_Ok grid_size l ds v Hr Hc Hl) as (spot & Hin & Hps).
    eexists. split; [exact Hps |].
    destruct (bool_decide (spot ∈ ds)) eqn:E.
    - exists ds. simpl. repeat split; try done; lia.
    - apply bool_decide_eq_false in E. exists (ds ++ [spot]). simpl.
      split; [apply lookup_insert_eq |].
      split. { apply NoDup_app. split; [done |]. split; [| apply NoDup_singleton].
               intros x Hx Hx'. apply list_elem_of_singleton in Hx' as ->. done. }
      split. { apply Forall_app. split; [done |]. by apply Forall_singleton. }
      split. { rewrite length_app. simpl. lia. }
      split. { intros l' Hl'. rewrite lookup_insert_ne by done. by apply Hoth. }
      repeat split; try done; lia. }
  destruct (for_range_invariant I _ Hbody (Z.to_nat num_dirt_spots) 0%nat
              (upd_heap <[l := []]> w))
    as (w' & Hloop & ds & Hl & Hnd & Hall & Hlen & Hoth & Ht & Hp & Hcur).
  { exists []. simpl. split; [apply lookup_insert_eq |].
    split; [apply NoDup_nil_2 |]. split; [done |]. split; [lia |].
    split; [intros l' Hl'; by rewrite lookup_insert_ne |].
    repeat split; try done; lia. }
  rewrite (bind_Ok _ _ _ _ _ Hloop).
  exists l, w', ds. repeat split; try done; lia.
Qed.

(** ** Construction *)

(** [Rumba.__init__] on a proper grid. *)
Lemma rumba_init_spec grid_size arg w :
  1 <= fst grid_size → 1 <= snd grid_size →
  list_arg_ok arg w →
  ∃ self w',
    Rumba.__init__ grid_size arg w = Ok self w' ∧
    Rumba.grid_size self = grid_size ∧
    in_bounds grid_size (Rumba.position self) ∧
    rumba_wf self w' ∧
    heap w' !! Rumba.cleaned_spots self = Some [] ∧
    heap w !! Rumba.cleaned_spots self = None ∧
    match arg with
    | Some l =>
        ∃ v, heap w !! l = Some v ∧
             heap w' !! Rumba.dirt_positions self = Some v ∧
             (v ≠ [] → Rumba.dirt_positions self = l) ∧
             (v = [] → heap w !! Rumba.dirt_positions self = None)
    | None =>
        heap w' !! Rumba.dirt_positions self = Some [] ∧
        heap w !! Rumba.dirt_positions self = None
    end ∧
    (∀ l', is_Some (heap w !! l') → heap w' !! l' = heap w !! l') ∧
    tape w' = tape w ∧ plots w' = plots w ∧ cursor w' = S (S (cursor w)).
Proof.
  intros Hr Hc Harg. unfold Rumba.__init__.
  (* the dirt list *)
  assert (∃ dirt w1 v,
    (match arg with
     | Some l => v <- deref l ;; match v with [] => alloc [] | _ :: _ => ret l end
     | None => alloc []
     end) w = Ok dirt w1 ∧
    heap w1 !! dirt = Some v ∧
    match arg with
    | Some l => heap w !! l = Some v ∧ (v ≠ [] → dirt = l) ∧ (v = [] → heap w !! dirt = None)
    | None => v = [] ∧ heap w !! dirt = None
    end ∧
    (∀ l', is_Some (heap w !! l') → heap w1 !! l' = heap w !! l') ∧
    (∀ l', heap w1 !! l' = None → heap w !! l' = None) ∧
    tape w1 = tape w ∧ plots w1 = plots w ∧ cursor w1 = cursor w)
    as (dirt & w1 & v & Hdirt & Hv & Hcase & Hold & Hnew & Ht & Hp & Hcur).
  { assert (Hfresh : ∀ l', is_Some (heap w !! l') →
              <[fresh (dom (heap w)) := []]> (heap w) !! l' = heap w !! l').
    { intros l' Hsome. rewrite lookup_insert_ne; [done |].
      intros <-. rewrite alloc_fresh in Hsome. by destruct Hsome. }
    assert (Hback : ∀ l', <[fresh (dom (heap w)) := []]> (heap w) !! l' = None →
              heap w !! l' = None).
    { intros l' Hnone. apply lookup_insert_None in Hnone as [? _]. done. }
    destruct arg as [l|]; simpl in Harg.
    - destruct Harg as [v Hl]. rewrite (bind_Ok _ _ _ _ _ (deref_Ok _ _ _ Hl)).
      destruct v as [|p v].
      + eexists _, _, []. split; [reflexivity |]. simpl.
        split; [apply lookup_insert_eq |].
        split; [split; [done |]; split; [done |]; intros _; apply alloc_fresh |].
        done.
      + exists l, w, (p :: v). split; [reflexivity |]. split; [done |].
        split; [split; [done |]; split; [done | done] |]. done.
    - eexists _, _, []. split; [reflexivity |]. simpl.
      split; [apply lookup_insert_eq |]. split; [split; [done | apply alloc_fresh] |]. done. }
  rewrite (bind_Ok _ _ _ _ _ Hdirt).
  destruct (randint_Ok 0 (fst grid_size - 1) w1 ltac:(lia)) as (r & Hrand1 & Hr1).
  destruct (randint_Ok 0 (snd grid_size - 1) (advance w1) ltac:(lia)) as (c & Hrand2 & Hc1).
  rewrite (bind_Ok _ _ _ _ _ Hrand1), (bind_Ok _ _ _ _ _ Hrand2).
  destruct (alloc_Ok [] (advance (advance w1))) as (cl & Hal & Hcl).
  rewrite (bind_Ok _ _ _ _ _ Hal). simpl in Hcl.
  assert (Hne : dirt ≠ cl) by (intros ->; congruence).
  eexists _, _. split; [reflexivity |]. simpl.
  split; [done |]. split; [unfold in_bounds; simpl; lia |].
  split.
  { split; [| split; [| done]]; simpl.
    - exists v. by rewrite lookup_insert_ne.
    - exists []. apply lookup_insert_eq. }
  split; [apply lookup_insert_eq |].
  split; [by apply Hnew |].
  split.
  { destruct arg as [l|].
    - destruct Hcase as (Hl & H1 & H2). exists v.
      split; [done |]. split; [by rewrite lookup_insert_ne | done].
    - destruct Hcase as [-> H1]. split; [by rewrite lookup_insert_ne | done]. }
  split; [| by rewrite Hcur].
  intros l' Hsome. rewrite lookup_insert_ne.
  - by apply Hold.
  - intros <-. apply Hnew in Hcl. rewrite Hcl in Hsome. by destruct Hsome.
Qed.

(** C3. On a grid with at least one row and one column, every position of the
    list the generator returns is on the grid, and so are the position the
    robot is constructed at and its position after any number of moves. *)
Theorem positions_stay_in_bounds grid_size num_dirt_spots arg w :
  1 <= fst grid_size → 1 <= snd grid_size →
  list_arg_ok arg w →
  (∃ l w' ds,
     Casa._generate_dirt_spots grid_size num_dirt_spots w = Ok l w' ∧
     heap w' !! l = Some ds ∧
     Forall (in_bounds grid_size) ds) ∧
  (∃ self w',
     Rumba.__init__ grid_size arg w = Ok self w' ∧
     in_bounds grid_size (Rumba.position self) ∧
     ∀ n, ∃ self' w'',
       steps n self w' = Ok self' w'' ∧
       in_bounds grid_size (Rumba.position self'))  ∧
  (∀ self v, rumba_wf self v → Rumba.grid_size self = grid_size →
     ∃ self' v', Rumba.move self v = Ok self' v' ∧
                 in_bounds grid_size (Rumba.position self')).
Proof.
  intros Hr Hc Harg.
  split; [| split].
  - destruct (generate_dirt_spots_spec grid_size num_dirt_spots w Hr Hc)
      as (l & w' & ds & Hgen & _ & Hl & _ & Hall & _).
    by exists l, w', ds.
  - destruct (rumba_init_spec grid_size arg w Hr Hc Harg)
      as (self & w' & Hinit & Hg & Hpos & Hwf & _).
    exists self, w'. split; [done |]. split; [done |]. intros n.
    pose (I := λ (r : Rumba.t) (v : World),
      rumba_wf r v ∧ Rumba.grid_size r = grid_size ∧
      in_bounds grid_size (Rumba.position r)).
    destruct (steps_invariant I) with (n := n) (self := self) (w := w')
      as (self' & w'' & Hst & _ & _ & Hb).
    + intros r v (Hwfr & Hgr & _). by apply move_valid.
    + done.
    + by exists self', w''.
  - intros self v Hwf Hg.
    destruct (move_valid grid_size self v Hr Hc Hwf Hg) as (r' & v' & ? & _ & _ & ?).
    by exists r', v'.
Qed.

(** ** The main loop *)

Lemma plot_grid_Ok grid_size state w dirt cleaned :
  heap w !! snap_dirt_positions state = Some dirt →
  heap w !! snap_cleaned_spots state = Some cleaned →
  plot_grid grid_size state w =
    Ok tt (show {| frame_grid := grid_size; frame_position := snap_position state;
                   frame_dirt := dirt; frame_cleaned := cleaned |} w).
Proof.
  intros Hd Hc. unfold plot_grid.
  rewrite (bind_Ok _ _ _ _ _ (deref_Ok _ _ _ Hd)).
  by rewrite (bind_Ok _ _ _ _ _ (deref_Ok _ _ _ Hc)).
Qed.

(** With more fuel than [max_steps - steps], the loop ends by its own
    condition after [k] iterations, each of which calls [move] once (one
    draw) and shows one frame. *)
Lemma main_loop_spec grid_size max_steps fuel :
  ∀ self w n,
    rumba_wf self w →
    (Z.to_nat (max_steps - n) < fuel)%nat →
    ∃ self' w' (k : nat),
      main_loop fuel grid_size max_steps self n w = Ok (self', n + Z.of_nat k) w' ∧
      Z.of_nat k <= Z.max 0 (max_steps - n) ∧
      rumba_wf self' w' ∧
      length (plots w') = (length (plots w) + k)%nat ∧
      cursor w' = (cursor w + k)%nat ∧
      (∃ clean, Rumba.is_clean self' w' = Ok clean w' ∧
                (clean = false → max_steps <= n + Z.of_nat k)) ∧
      (Rumba.is_clean self w = Ok true w →
       k = 0%nat ∧ plots w' = plots w ∧ Rumba.is_clean self' w' = Ok true w').
Proof.
  induction fuel as [|fuel IH]; intros self w n Hwf Hfuel; [lia |].
  destruct (rumba_wf_lists _ _ Hwf) as (ds & cs & Hd & Hc & Hne).
  pose proof (is_clean_Ok self w ds Hd) as Hcl.
  cbn [main_loop]. rewrite (bind_Ok _ _ _ _ _ Hcl).
  destruct (negb (Z.of_nat (length ds) =? 0) && (n <? max_steps)) eqn:Hcond.
  - apply andb_true_iff in Hcond as [Hdirty Hlt].
    apply negb_true_iff in Hdirty. apply Z.ltb_lt in Hlt.
    destruct (move_wf self w Hwf) as (d & w1 & _ & Hch & Hmv & Hwf1).
    rewrite (bind_Ok _ _ _ _ _ Hmv).
    assert (cursor w1 = S (cursor w) ∧ plots w1 = plots w) as [Hcur1 Hplots1].
    { rewrite (move_spec self w ds cs d Hd Hc Hne Hch) in Hmv.
      injection Hmv as <-. by destruct (remove_first (target self d) ds). }
    destruct (rumba_wf_lists _ _ Hwf1) as (ds1 & cs1 & Hd1 & Hc1 & Hne1).
    erewrite bind_Ok; [| reflexivity].
    erewrite bind_Ok; [| by apply (plot_grid_Ok _ _ _ ds1 cs1)].
    match goal with |- context [show ?fr w1] => set (w2 := show fr w1) end.
    assert (Hwf2 : rumba_wf (Rumba.set_position (target self d) self) w2) by exact Hwf1.
    destruct (IH _ w2 (n + 1) Hwf2 ltac:(lia))
      as (self' & w' & k & Hloop & Hk & Hwf' & Hplots & Hcur & Hfin & _).
    exists self', w', (S k).
    split. { rewrite Hloop. do 2 f_equal. lia. }
    split; [lia |]. split; [done |].
    split. { rewrite Hplots. unfold w2. simpl. rewrite length_app, Hplots1. simpl. lia. }
    split. { rewrite Hcur. unfold w2. simpl. lia. }
    split.
    { destruct Hfin as (clean & Hclean & Hlim). exists clean. split; [done |].
      intros Hf. specialize (Hlim Hf). lia. }
    intros Hclean. rewrite Hcl in Hclean. injection Hclean as Hclean. congruence.
  - exists self, w, 0%nat.
    split. { unfold ret. do 2 f_equal. lia. }
    split; [lia |]. split; [done |]. split; [lia |]. split; [lia |].
    split; [| done].
    exists (Z.of_nat (length ds) =? 0). split; [done |].
    intros Hf. rewrite Hf in Hcond. simpl in Hcond. apply Z.ltb_ge in Hcond. lia.
Qed.

(** C7. On a proper grid, for every dirt count, every [max_steps > 0] and
    every tape, the run ends (any fuel above [max_steps] is enough) after at
    most [max_steps] iterations of the loop: the reported step count is
    between 0 and [max_steps], and it is the number of frames shown and of
    draws made by [move].  With zero dirt spots the loop does not iterate
    and the run reports success with 0 steps. *)
Theorem run_terminates_within_budget fuel grid_size num_dirt_spots max_steps w :
  1 <= fst grid_size → 1 <= snd grid_size →
  0 < max_steps →
  (Z.to_nat max_steps < fuel)%nat →
  ∃ out w',
    run fuel grid_size num_dirt_spots max_steps w = Ok out w' ∧
    0 <= steps_taken out <= max_steps ∧
    length (plots w') = (length (plots w) + Z.to_nat (steps_taken out))%nat ∧
    cursor w' =
      (cursor w + 2 * Z.to_nat num_dirt_spots + 2 + Z.to_nat (steps_taken out))%nat ∧
    (success out = false → steps_taken out = max_steps) ∧
    (num_dirt_spots = 0 →
     success out = true ∧ steps_taken out = 0 ∧ plots w' = plots w).
Proof.
  intros Hr Hc Hmax Hfuel. unfold run.
  destruct (generate_dirt_spots_spec grid_size num_dirt_spots w Hr Hc)
    as (l & w1 & ds & Hgen & _ & Hl & _ & _ & Hlen & _ & _ & Hp1 & Hcur1).
  assert (Hcasa : Casa.__init__ grid_size num_dirt_spots w =
                  Ok {| Casa.grid_size := grid_size; Casa.dirt_positions := l |} w1).
  { unfold Casa.__init__. by rewrite (bind_Ok _ _ _ _ _ Hgen). }
  rewrite (bind_Ok _ _ _ _ _ Hcasa).
  erewrite bind_Ok; [| reflexivity]. cbn [Casa.dirt_positions].
  destruct (rumba_init_spec grid_size (Some l) w1 Hr Hc) as
    (self & w2 & Hinit & _ & _ & Hwf & _ & _ & (v & Hv & Hdirt & _) & _ & _ & Hp2 & Hcur2).
  { simpl. eauto. }
  rewrite (bind_Ok _ _ _ _ _ Hinit).
  destruct (main_loop_spec grid_size max_steps fuel self w2 0 Hwf)
    as (self' & w3 & k & Hloop & Hk & _ & Hp3 & Hcur3 & (clean & Hclean & Hlim) & Hzero).
  { replace (max_steps - 0) with max_steps by lia. done. }
  rewrite (bind_Ok _ _ _ _ _ Hloop). cbn [fst snd].
  rewrite (bind_Ok _ _ _ _ _ Hclean).
  eexists _, w3. split; [reflexivity |]. cbn [steps_taken success].
  split; [lia |].
  split. { rewrite Hp3, Hp2, Hp1. lia. }
  split. { rewrite Hcur3, Hcur2, Hcur1. lia. }
  split. { intros Hf. specialize (Hlim Hf). lia. }
  intros ->. simpl in Hlen.
  assert (v = []) as ->.
  { rewrite Hl in Hv. injection Hv as <-. destruct ds; [done | simpl in Hlen; lia]. }
  destruct Hzero as (-> & Hp & Hcl).
  { by rewrite (is_clean_Ok self w2 [] Hdirt). }
  rewrite Hcl in Hclean. injection Hclean as <-.
  split; [done |]. split; [done |]. by rewrite Hp, Hp2, Hp1.
Qed.

(** ** The generator and the requested count *)

(** The part of C1 that the code keeps: no duplicates, and at most
    [min(requested_count, rows * cols)] positions. *)
Lemma generate_dirt_spots_bounded grid_size num_dirt_spots w :
  1 <= fst grid_size → 1 <= snd grid_size → 0 <= num_dirt_spots →
  ∃ l w' ds,
    Casa._generate_dirt_spots grid_size num_dirt_spots w = Ok l w' ∧
    heap w' !! l = Some ds ∧
    NoDup ds ∧
    Z.of_nat (length ds) <= Z.min num_dirt_spots (fst grid_size * snd grid_size).
Proof.
  intros Hr Hc Hn.
  destruct (generate_dirt_spots_spec grid_size num_dirt_spots w Hr Hc)
    as (l & w' & ds & Hgen & _ & Hl & Hnd & Hall & Hlen & _).
  exists l, w', ds. split; [done |]. split; [done |]. split; [done |].
  pose proof (NoDup_in_bounds_length grid_size ds Hr Hc Hnd Hall). lia.
Qed.

(** C1. The generator draws [requested_count] times and drops a draw that
    repeats an earlier one, without drawing again: on a 2 x 2 grid with 2
    spots requested (2 <= 4) and a tape that draws the cell (0,0) twice, the
    list returned holds one position. *)
Theorem generate_collision_loses_a_spot :
  2 <= 2 * 2 ∧
  ∃ l w',
    Casa._generate_dirt_spots (2, 2) 2 (constant_world 0) = Ok l w' ∧
    heap w' !! l = Some [(0, 0)].
Proof.
  split; [lia |]. eexists _, _. split.
  - vm_compute. reflexivity.
  - vm_compute. reflexivity.
Qed.

(** ** Grids without rows or columns *)

Lemma place_spot_empty_range grid_size l w :
  fst grid_size <= 0 ∨ snd grid_size <= 0 →
  Casa.place_spot grid_size l w = Raise ValueError.
Proof.
  intros Hbad. unfold Casa.place_spot, bind.
  destruct (Z_lt_le_dec (fst grid_size - 1) 0) as [Hr | Hr].
  - by rewrite randint_empty.
  - destruct (randint_Ok 0 (fst grid_size - 1) w Hr) as (r & -> & _).
    rewrite randint_empty; [done | lia].
Qed.

Lemma rumba_init_empty_range grid_size arg w :
  fst grid_size <= 0 ∨ snd grid_size <= 0 →
  list_arg_ok arg w →
  Rumba.__init__ grid_size arg w = Raise ValueError.
Proof.
  intros Hbad Harg. unfold Rumba.__init__.
  assert (∃ dirt w1,
    (match arg with
     | Some l => v <- deref l ;; match v with [] => alloc [] | _ :: _ => ret l end
     | None => alloc []
     end) w = Ok dirt w1) as (dirt & w1 & Hdirt).
  { destruct arg as [l|]; simpl in Harg; [| by eexists _, _].
    destruct Harg as [v Hl]. rewrite (bind_Ok _ _ _ _ _ (deref_Ok _ _ _ Hl)).
    destruct v; by eexists _, _. }
  rewrite (bind_Ok _ _ _ _ _ Hdirt). unfold bind.
  destruct (Z_lt_le_dec (fst grid_size - 1) 0) as [Hr | Hr].
  - by rewrite randint_empty.
  - destruct (randint_Ok 0 (fst grid_size - 1) w1 Hr) as (r & -> & _).
    rewrite randint_empty; [done | lia].
Qed.

(** C2, as the code has it.  There is no validation of the grid; what rejects
    a grid with [rows <= 0] or [cols <= 0] is [random.randint], on its empty
    range.  [Rumba.__init__] always draws, so it always raises [ValueError];
    [Casa.__init__] draws only inside its loop, so it raises when at least
    one spot is requested and otherwise returns a house with that grid and
    an empty dirt list. *)
Theorem nonpositive_grid_construction grid_size :
  fst grid_size <= 0 ∨ snd grid_size <= 0 →
  (∀ arg w, list_arg_ok arg w →
     Rumba.__init__ grid_size arg w = Raise ValueError) ∧
  (∀ num_dirt_spots w, 1 <= num_dirt_spots →
     Casa.__init__ grid_size num_dirt_spots w = Raise ValueError) ∧
  (∀ num_dirt_spots w, num_dirt_spots <= 0 →
     ∃ casa w',
       Casa.__init__ grid_size num_dirt_spots w = Ok casa w' ∧
       Casa.grid_size casa = grid_size ∧
       heap w' !! Casa.dirt_positions casa = Some []).
Proof.
  intros Hbad. split; [| split].
  - intros arg w Harg. by apply rumba_init_empty_range.
  - intros n w Hn. unfold Casa.__init__, Casa._generate_dirt_spots.
    destruct (Z.to_nat n) as [|k] eqn:E; [lia |].
    apply bind_Raise. destruct (alloc_Ok [] w) as (l & Hal & _).
    rewrite (bind_Ok _ _ _ _ _ Hal). apply bind_Raise.
    cbn [for_range]. apply bind_Raise. by apply place_spot_empty_range.
  - intros n w Hn. unfold Casa.__init__, Casa._generate_dirt_spots.
    replace (Z.to_nat n) with 0%nat by lia.
    eexists _, _. split; [reflexivity |]. simpl.
    split; [done | apply lookup_insert_eq].
Qed.

(** C2 fails as stated: a house on a 0 x 0 grid with no dirt spots is
    constructed. *)
Lemma casa_accepts_empty_grid :
  fst (0, 0) <= 0 ∧
  ∃ casa w',
    Casa.__init__ (0, 0) 0 (constant_world 0) = Ok casa w' ∧
    Casa.grid_size casa = (0, 0).
Proof.
  split; [simpl; lia |]. eexists _, _. split; [vm_compute; reflexivity | reflexivity].
Qed.

Lemma nonpositive_grid_construction_witness :
  (∀ arg w, list_arg_ok arg w →
     Rumba.__init__ (0, 5) arg w = Raise ValueError) ∧
  (∀ num_dirt_spots w, 1 <= num_dirt_spots →
     Casa.__init__ (0, 5) num_dirt_spots w = Raise ValueError) ∧
  (∀ num_dirt_spots w, num_dirt_spots <= 0 →
     ∃ casa w',
       Casa.__init__ (0, 5) num_dirt_spots w = Ok casa w' ∧
       Casa.grid_size casa = (0, 5) ∧
       heap w' !! Casa.dirt_positions casa = Some []).
Proof. apply (nonpositive_grid_construction (0, 5)). left. simpl. lia. Defined.

(** ** Sharing of the lists *)

(** C9 fails as stated.  Appending (2,2) to the two lists of the dict that
    [get_state] returned changes the robot's own lists: they were [(0,0)]
    and [] and are [(0,0); (2,2)] and [(2,2)].  And the house keeps the list
    it handed over: on a 1 x 1 grid with one dirt spot, its [dirt_positions]
    is [(0,0)] before the robot is made and [] after the robot's first
    move. *)
Lemma snapshot_and_house_are_aliases :
  heap (example_world [(0, 0)] (λ _, 0)) !! Rumba.dirt_positions (example_robot (3, 3) (1, 1))
    = Some [(0, 0)] ∧
  heap (example_world [(0, 0)] (λ _, 0)) !! Rumba.cleaned_spots (example_robot (3, 3) (1, 1))
    = Some [] ∧
  (∃ w', mutate_snapshot (example_robot (3, 3) (1, 1)) (2, 2) (example_world [(0, 0)] (λ _, 0))
         = Ok ([(0, 0); (2, 2)], [(2, 2)]) w') ∧
  (∃ w', handoff_then_move (1, 1) 1 (constant_world 0) = Ok ([(0, 0)], []) w').
Proof.
  split; [vm_compute; reflexivity |]. split; [vm_compute; reflexivity |].
  split; eexists; vm_compute; reflexivity.
Qed.

(** C9, as the code has it.  The dict of [get_state] holds the robot's own
    two list objects, so an append made through the dict is an append to the
    robot's list; and the robot built from [casa.get_dirt_positions()] keeps
    the house's list object whenever that list is non-empty (for an empty
    one it makes a list of its own). *)
Theorem get_state_and_handoff_share_lists self w ds cs p grid_size casa v wc :
  heap w !! Rumba.dirt_positions self = Some ds →
  heap w !! Rumba.cleaned_spots self = Some cs →
  1 <= fst grid_size → 1 <= snd grid_size →
  heap wc !! Casa.dirt_positions casa = Some v →
  (∃ state,
     Rumba.get_state self w = Ok state w ∧
     snap_dirt_positions state = Rumba.dirt_positions self ∧
     snap_cleaned_spots state = Rumba.cleaned_spots self ∧
     (∃ w', list_append (snap_dirt_positions state) p w = Ok tt w' ∧
            heap w' !! Rumba.dirt_positions self = Some (ds ++ [p])) ∧
     (∃ w', list_append (snap_cleaned_spots state) p w = Ok tt w' ∧
            heap w' !! Rumba.cleaned_spots self = Some (cs ++ [p]))) ∧
  (∃ rumba wc',
     (dirt <- Casa.get_dirt_positions casa ;;
      Rumba.__init__ grid_size (Some dirt)) wc = Ok rumba wc' ∧
     heap wc' !! Rumba.dirt_positions rumba = Some v ∧
     (v ≠ [] → Rumba.dirt_positions rumba = Casa.dirt_positions casa) ∧
     (v = [] → Rumba.dirt_positions rumba ≠ Casa.dirt_positions casa)).
Proof.
  intros Hd Hc Hr Hcols Hv. split.
  - eexists. split; [reflexivity |]. simpl. split; [done |]. split; [done |].
    split; eexists.
    + split; [by apply list_append_Ok |]. simpl. apply lookup_insert_eq.
    + split; [by apply list_append_Ok |]. simpl. apply lookup_insert_eq.
  - destruct (rumba_init_spec grid_size (Some (Casa.dirt_positions casa)) wc Hr Hcols)
      as (rumba & wc' & Hinit & _ & _ & _ & _ & _ & (v' & Hv' & Hdirt & Hsame & Hnew) & _).
    { simpl. eauto. }
    rewrite Hv in Hv'. injection Hv' as <-.
    exists rumba, wc'. split.
    { unfold Casa.get_dirt_positions. erewrite bind_Ok; [exact Hinit | reflexivity]. }
    split; [done |]. split; [done |].
    intros Hnil Heq. specialize (Hnew Hnil). rewrite Heq in Hnew. congruence.
Qed.

(** ** Reachable states *)

(** A robot can only be constructed on a grid with rows and columns, from a
    list argument that the store holds. *)
Lemma rumba_init_Ok_inv grid_size arg w self w' :
  Rumba.__init__ grid_size arg w = Ok self w' →
  1 <= fst grid_size ∧ 1 <= snd grid_size ∧ list_arg_ok arg w.
Proof.
  intros Hinit.
  assert (Harg : list_arg_ok arg w).
  { destruct arg as [l|]; simpl; [| done].
    destruct (heap w !! l) as [v|] eqn:E; [by exists v |].
    unfold Rumba.__init__ in Hinit.
    rewrite (bind_Raise _ _ _ InvalidRef) in Hinit; [done |].
    apply bind_Raise. unfold deref. by rewrite E. }
  destruct (Z_lt_le_dec (fst grid_size) 1) as [Hr | Hr].
  { rewrite rumba_init_empty_range in Hinit; [done | lia | done]. }
  destruct (Z_lt_le_dec (snd grid_size) 1) as [Hc | Hc].
  { rewrite rumba_init_empty_range in Hinit; [done | lia | done]. }
  done.
Qed.

(** Every state that construction and moves lead to is well formed, with
    the robot on its grid. *)
Lemma reachable_valid grid_size arg w0 self0 w1 n self w :
  Rumba.__init__ grid_size arg w0 = Ok self0 w1 →
  steps n self0 w1 = Ok self w →
  rumba_wf self w ∧ in_bounds (Rumba.grid_size self) (Rumba.position self).
Proof.
  intros Hinit Hsteps.
  destruct (rumba_init_Ok_inv _ _ _ _ _ Hinit) as (Hr & Hc & Harg).
  destruct (rumba_init_spec grid_size arg w0 Hr Hc Harg)
    as (r0 & v1 & Hinit' & Hg & Hpos & Hwf & _).
  rewrite Hinit in Hinit'. injection Hinit' as <- <-.
  pose (I := λ (r : Rumba.t) (v : World),
    rumba_wf r v ∧ Rumba.grid_size r = grid_size ∧
    in_bounds grid_size (Rumba.position r)).
  destruct (steps_invariant I) with (n := n) (self := self0) (w := w1)
    as (r & v & Hst & Hwf' & Hg' & Hb).
  - intros r v (Hwfr & Hgr & _). by apply move_valid.
  - done.
  - rewrite Hsteps in Hst. injection Hst as <- <-. by rewrite Hg'.
Qed.

(** C10. One [move] changes at most one coordinate of the position, and
    that one by at most 1 (consecutive positions are at Manhattan distance
    at most 1): for every well-formed state with the robot on its grid and
    every draw, hence for every state that construction followed by any
    number of moves leads to. *)
Theorem move_unit_displacement :
  (∀ self w,
     rumba_wf self w →
     in_bounds (Rumba.grid_size self) (Rumba.position self) →
     ∃ self' w',
       Rumba.move self w = Ok self' w' ∧
       unit_displacement (Rumba.position self) (Rumba.position self')) ∧
  (∀ grid_size arg w0 self0 w1 n self w,
     Rumba.__init__ grid_size arg w0 = Ok self0 w1 →
     steps n self0 w1 = Ok self w →
     ∃ self' w',
       Rumba.move self w = Ok self' w' ∧
       unit_displacement (Rumba.position self) (Rumba.position self')).
Proof.
  assert (Hvalid : ∀ self w,
    rumba_wf self w →
    in_bounds (Rumba.grid_size self) (Rumba.position self) →
    ∃ self' w',
      Rumba.move self w = Ok self' w' ∧
      unit_displacement (Rumba.position self) (Rumba.position self')).
  { intros self w Hwf [Hr Hc].
    destruct (move_wf self w Hwf) as (d & w' & Hin & _ & Hmv & _).
    eexists _, _. split; [exact Hmv |].
    unfold unit_displacement, target, Rumba.clamp. simpl.
    destruct (direction_cases d Hin) as [-> | [-> | [-> | ->]]]; simpl; lia. }
  split; [exact Hvalid |].
  intros grid_size arg w0 self0 w1 n self w Hinit Hsteps.
  destruct (reachable_valid _ _ _ _ _ _ _ _ Hinit Hsteps) as [Hwf Hb].
  by apply Hvalid.
Qed.

(** ** The theorems at concrete inputs *)

Lemma example_world_wf grid_size p dirt draws :
  rumba_wf (example_robot grid_size p) (example_world dirt draws).
Proof.
  split; [by exists dirt |]. split; [by exists [] |]. simpl. lia.
Defined.

Lemma positions_stay_in_bounds_witness :
  ∃ l w' ds,
    Casa._generate_dirt_spots (3, 3) 2 (constant_world 0) = Ok l w' ∧
    heap w' !! l = Some ds ∧
    Forall (in_bounds (3, 3)) ds.
Proof.
  apply (positions_stay_in_bounds (3, 3) 2 None (constant_world 0));
    [simpl; lia | simpl; lia | exact I].
Defined.

Lemma move_cleans_at_most_one_witness :
  ∃ self' w' ds' cs',
    steps 3 (example_robot (3, 3) (1, 1)) (example_world [(0, 0)] (λ _, 0)) = Ok self' w' ∧
    heap w' !! Rumba.dirt_positions self' = Some ds' ∧
    heap w' !! Rumba.cleaned_spots self' = Some cs' ∧
    Z.of_nat (length cs') = Z.of_nat (length [(0, 0)]) - Z.of_nat (length ds').
Proof.
  destruct (move_cleans_at_most_one (example_robot (3, 3) (1, 1))
              (example_world [(0, 0)] (λ _, 0)) [(0, 0)] []) as [_ Hcount];
    [reflexivity | reflexivity | simpl; lia | apply NoDup_singleton |].
  exact (Hcount eq_refl 3%nat).
Defined.

Lemma move_clamps_each_coordinate_witness :
  ∃ self' w',
    Rumba.move (example_robot (5, 5) (0, 0)) (example_world [(3, 3)] (λ _, 0)) = Ok self' w' ∧
    Rumba.position self' = (0, 0) ∧
    cursor w' = 1%nat.
Proof.
  destruct (move_clamps_each_coordinate (example_robot (5, 5) (0, 0))
              (example_world [(3, 3)] (λ _, 0)) (-1, 0))
    as (self' & w' & Hmv & _ & _ & _ & _ & Hpos & Hcur & _);
    [apply example_world_wf | reflexivity |].
  exists self', w'. split; [exact Hmv |]. split; [by apply Hpos | exact Hcur].
Defined.

Lemma clean_is_absorbing_witness :
  ∃ self' w',
    steps 2 (example_robot (3, 3) (1, 1)) (example_world [] (λ _, 0)) = Ok self' w' ∧
    heap w' !! Rumba.dirt_positions self' = Some [] ∧
    Rumba.is_clean self' w' = Ok true w' ∧
    heap w' !! Rumba.cleaned_spots self' = Some [].
Proof.
  apply (clean_is_absorbing (example_robot (3, 3) (1, 1)) (example_world [] (λ _, 0)) []
           (example_world_wf (3, 3) (1, 1) [] (λ _, 0)) eq_refl eq_refl 2%nat).
Defined.

Lemma run_terminates_within_budget_witness :
  ∃ out w',
    run 4 (2, 2) 1 3 (constant_world 0) = Ok out w' ∧
    0 <= steps_taken out <= 3.
Proof.
  destruct (run_terminates_within_budget 4 (2, 2) 1 3 (constant_world 0))
    as (out & w' & Hrun & Hsteps & _); [simpl; lia | simpl; lia | lia | lia |].
  by exists out, w'.
Defined.

Lemma scripted_scenario_witness :
  ∃ self' w',
    steps 4 (example_robot (3, 3) (2, 2)) (example_world [(0, 0)] up_up_left_left)
      = Ok self' w' ∧
    Rumba.position self' = (0, 0) ∧
    Rumba.is_clean self' w' = Ok true w' ∧
    heap w' !! Rumba.cleaned_spots self' = Some [(0, 0)].
Proof.
  apply (scripted_scenario (example_robot (3, 3) (2, 2))
           (example_world [(0, 0)] up_up_left_left));
    [reflexivity | reflexivity | reflexivity | reflexivity | simpl; lia |].
  repeat split; reflexivity.
Defined.

Lemma move_unit_displacement_witness :
  ∃ self' w',
    Rumba.move (example_robot (3, 3) (1, 1)) (example_world [(0, 0)] (λ _, 0)) = Ok self' w' ∧
    unit_displacement (1, 1) (Rumba.position self').
Proof.
  apply (proj1 move_unit_displacement (example_robot (3, 3) (1, 1))
           (example_world [(0, 0)] (λ _, 0)));
    [apply example_world_wf | unfold in_bounds; simpl; lia].
Defined.

Lemma get_state_and_handoff_share_lists_witness :
  ∃ rumba wc',
    (dirt <- Casa.get_dirt_positions (example_casa (3, 3)) ;;
     Rumba.__init__ (3, 3) (Some dirt)) (example_world [(0, 0)] (λ _, 0)) = Ok rumba wc' ∧
    Rumba.dirt_positions rumba = Casa.dirt_positions (example_casa (3, 3)).
Proof.
  destruct (get_state_and_handoff_share_lists (example_robot (3, 3) (1, 1))
              (example_world [(0, 0)] (λ _, 0)) [(0, 0)] [] (2, 2)
              (3, 3) (example_casa (3, 3)) [(0, 0)] (example_world [(0, 0)] (λ _, 0)))
    as (_ & rumba & wc' & Hinit & _ & Hsame & _);
    [reflexivity | reflexivity | simpl; lia | simpl; lia | reflexivity |].
  exists rumba, wc'. split; [exact Hinit | by apply Hsame].
Defined.


(** * Further properties of the code *)

(** ** The generator, draw by draw *)

Lemma randint_from_zero dimension w :
  1 <= dimension →
  randint 0 (dimension - 1) w = Ok (tape w (cursor w) mod dimension) (advance w).
Proof.
  intros Hd. unfold randint.
  destruct (dimension - 1 <? 0) eqn:E; [apply Z.ltb_lt in E; lia |].
  replace (dimension - 1 - 0 + 1) with dimension by lia. by rewrite Z.add_0_l.
Qed.

Lemma place_spot_exact grid_size l ds w :
  1 <= fst grid_size → 1 <= snd grid_size →
  heap w !! l = Some ds →
  Casa.place_spot grid_size l w =
    Ok tt (upd_heap <[l := collect ds [spot_at grid_size (tape w) (cursor w)]]>
             (advance (advance w))).
Proof.
  intros Hr Hc Hl. unfold Casa.place_spot.
  rewrite (bind_Ok _ _ _ _ _ (randint_from_zero _ w Hr)).
  rewrite (bind_Ok _ _ _ _ _ (randint_from_zero _ (advance w) Hc)). cbn zeta.
  change (tape (advance w) (cursor (advance w)) `mod` grid_size.2)
    with (tape w (S (cursor w)) `mod` grid_size.2).
  fold (spot_at grid_size (tape w) (cursor w)).
  set (spot := spot_at grid_size (tape w) (cursor w)).
  rewrite (bind_Ok _ _ _ _ _ (list_contains_Ok spot l ds (advance (advance w)) Hl)).
  simpl collect. destruct (bool_decide (spot ∈ ds)); simpl.
  - unfold ret, upd_heap. simpl. f_equal. by rewrite insert_id.
  - by rewrite (list_append_Ok l spot ds (advance (advance w)) Hl).
Qed.

Lemma collect_app acc spots1 spots2 :
  collect acc (spots1 ++ spots2) = collect (collect acc spots1) spots2.
Proof. revert acc. induction spots1 as [|s spots1 IH]; intros acc; simpl; [done | apply IH]. Qed.

Lemma drawn_spots_S grid_size w w1 n :
  tape w1 = tape w → cursor w1 = S (S (cursor w)) →
  drawn_spots grid_size w (S n) =
    spot_at grid_size (tape w) (cursor w) :: drawn_spots grid_size w1 n.
Proof.
  intros Ht Hc. unfold drawn_spots.
  rewrite <- cons_seq, <- fmap_S_seq, fmap_cons, <- list_fmap_compose.
  f_equal; [f_equal; lia |].
  apply list_fmap_ext. intros _ k _. rewrite Ht, Hc. simpl. f_equal. lia.
Qed.

(** The loop of the generator computes [collect] on the spots drawn. *)
Lemma generate_loop_collect grid_size l n :
  1 <= fst grid_size → 1 <= snd grid_size →
  ∀ w acc,
    heap w !! l = Some acc →
    ∃ w',
      for_range n (Casa.place_spot grid_size l) w = Ok tt w' ∧
      heap w' = <[l := collect acc (drawn_spots grid_size w n)]> (heap w) ∧
      tape w' = tape w ∧ plots w' = plots w ∧
      cursor w' = (cursor w + 2 * n)%nat.
Proof.
  intros Hr Hc. induction n as [|n IH]; intros w acc Hl.
  - exists w. simpl. split; [done |]. split; [by rewrite insert_id |].
    split; [done |]. split; [done | lia].
  - cbn [for_range]. rewrite (bind_Ok _ _ _ _ _ (place_spot_exact _ _ _ _ Hr Hc Hl)).
    set (acc1 := collect acc [spot_at grid_size (tape w) (cursor w)]).
    set (w1 := upd_heap <[l := acc1]> (advance (advance w))).
    destruct (IH w1 acc1) as (w' & Hloop & Hheap & Ht & Hp & Hcur).
    { unfold w1. simpl. apply lookup_insert_eq. }
    exists w'. split; [done |].
    split.
    { rewrite Hheap, (drawn_spots_S grid_size w w1 n eq_refl eq_refl).
      unfold w1 at 2. cbn [heap upd_heap advance]. by rewrite insert_insert_eq. }
    split; [done |]. split; [done |]. rewrite Hcur. unfold w1. simpl. lia.
Qed.

Lemma collect_NoDup acc spots : NoDup acc → NoDup (collect acc spots).
Proof.
  revert acc. induction spots as [|s spots IH]; intros acc Hnd; simpl; [done |].
  apply IH. case_bool_decide; [done |].
  apply NoDup_app. split; [done |]. split; [| apply NoDup_singleton].
  intros x Hx Hx'. apply list_elem_of_singleton in Hx' as ->. done.
Qed.

Lemma collect_elem_of acc spots p : p ∈ collect acc spots ↔ p ∈ acc ∨ p ∈ spots.
Proof.
  revert acc. induction spots as [|s spots IH]; intros acc; simpl.
  - rewrite elem_of_nil. tauto.
  - rewrite IH, elem_of_cons. case_bool_decide as Hs.
    + split; [tauto |]. intros [? | [-> | ?]]; tauto.
    + rewrite elem_of_app, list_elem_of_singleton. tauto.
Qed.

Lemma collect_extends acc spots :
  ∃ new, collect acc spots = acc ++ new ∧ sublist new spots.
Proof.
  revert acc. induction spots as [|s spots IH]; intros acc; simpl.
  - exists []. by rewrite app_nil_r.
  - case_bool_decide.
    + destruct (IH acc) as (new & -> & Hsub). exists new. split; [done |].
      by apply sublist_cons.
    + destruct (IH (acc ++ [s])) as (new & -> & Hsub). exists (s :: new).
      split; [by rewrite <- app_assoc |]. by apply sublist_skip.
Qed.

Lemma collect_length acc spots :
  NoDup acc →
  (length (collect acc spots) ≤ length acc + length spots)%nat ∧
  (length (collect acc spots) = (length acc + length spots)%nat ↔ NoDup (acc ++ spots)).
Proof.
  revert acc. induction spots as [|s spots IH]; intros acc Hnd; simpl.
  - rewrite app_nil_r. split; [lia |]. split; [done | lia].
  - case_bool_decide as Hs.
    + destruct (IH acc Hnd) as [Hle _]. split; [lia |]. split; [lia |].
      intros Hnd'. apply NoDup_app in Hnd' as (_ & Hdisj & _).
      exfalso. apply (Hdisj s Hs). by left.
    + assert (Hnd1 : NoDup (acc ++ [s])).
      { apply NoDup_app. split; [done |]. split; [| apply NoDup_singleton].
        intros x Hx Hx'. apply list_elem_of_singleton in Hx' as ->. done. }
      destruct (IH (acc ++ [s]) Hnd1) as [Hle Hiff].
      rewrite length_app in Hle, Hiff. simpl in Hle, Hiff.
      rewrite <- app_assoc in Hiff. simpl in Hiff.
      split; [lia |]. rewrite <- Hiff. lia.
Qed.

(** X1. On a proper grid the generator returns the spots it drew, each kept
    at its first occurrence and in the order drawn: the list holds exactly
    the drawn spots, is a sublist of the sequence of draws, and has the
    requested length exactly when the draws were pairwise distinct. *)
Theorem generate_keeps_first_occurrences grid_size num_dirt_spots w :
  1 <= fst grid_size → 1 <= snd grid_size →
  ∃ l w' ds,
    Casa._generate_dirt_spots grid_size num_dirt_spots w = Ok l w' ∧
    heap w' !! l = Some ds ∧
    ds = collect [] (drawn_spots grid_size w (Z.to_nat num_dirt_spots)) ∧
    (∀ p, p ∈ ds ↔ p ∈ drawn_spots grid_size w (Z.to_nat num_dirt_spots)) ∧
    sublist ds (drawn_spots grid_size w (Z.to_nat num_dirt_spots)) ∧
    (length ds = Z.to_nat num_dirt_spots ↔
     NoDup (drawn_spots grid_size w (Z.to_nat num_dirt_spots))).
Proof.
  intros Hr Hc. unfold Casa._generate_dirt_spots.
  destruct (alloc_Ok [] w) as (l & Hal & _). rewrite (bind_Ok _ _ _ _ _ Hal).
  set (n := Z.to_nat num_dirt_spots).
  destruct (generate_loop_collect grid_size l n Hr Hc (upd_heap <[l := []]> w) [])
    as (w' & Hloop & Hheap & _).
  { simpl. apply lookup_insert_eq. }
  rewrite (bind_Ok _ _ _ _ _ Hloop).
  change (drawn_spots grid_size (upd_heap <[l := []]> w) n)
    with (drawn_spots grid_size w n) in Hheap.
  exists l, w', (collect [] (drawn_spots grid_size w n)).
  split; [done |]. split; [rewrite Hheap; apply lookup_insert_eq |].
  split; [done |].
  split. { intros p. rewrite collect_elem_of, elem_of_nil. tauto. }
  split. { destruct (collect_extends [] (drawn_spots grid_size w n)) as (new & -> & Hsub).
           done. }
  destruct (collect_length [] (drawn_spots grid_size w n) (NoDup_nil_2)) as [_ Hiff].
  assert (Hlen : length (drawn_spots grid_size w n) = n).
  { unfold drawn_spots. by rewrite length_fmap, length_seq. }
  simpl in Hiff. by rewrite Hlen in Hiff.
Qed.

(** X2. The generator has no effect beyond its result: on a proper grid it
    returns a list object that did not exist before, leaves every other list
    object as it was, shows nothing, and consumes exactly two draws per
    requested spot. *)
Theorem generate_touches_nothing_else grid_size num_dirt_spots w :
  1 <= fst grid_size → 1 <= snd grid_size →
  ∃ l w',
    Casa._generate_dirt_spots grid_size num_dirt_spots w = Ok l w' ∧
    heap w !! l = None ∧
    is_Some (heap w' !! l) ∧
    (∀ l', l' ≠ l → heap w' !! l' = heap w !! l') ∧
    plots w' = plots w ∧ tape w' = tape w ∧
    cursor w' = (cursor w + 2 * Z.to_nat num_dirt_spots)%nat.
Proof.
  intros Hr Hc.
  destruct (generate_dirt_spots_spec grid_size num_dirt_spots w Hr Hc)
    as (l & w' & ds & Hgen & Hnew & Hl & _ & _ & _ & Hoth & Ht & Hp & Hcur).
  exists l, w'. split; [done |]. split; [done |]. split; [by exists ds | done].
Qed.

(** X3. Asking for more spots than the grid has cells is not an error: the
    generator returns normally, with a duplicate-free list that is strictly
    shorter than requested. *)
Theorem generate_overfull_request grid_size num_dirt_spots w :
  1 <= fst grid_size → 1 <= snd grid_size →
  fst grid_size * snd grid_size < num_dirt_spots →
  ∃ l w' ds,
    Casa._generate_dirt_spots grid_size num_dirt_spots w = Ok l w' ∧
    heap w' !! l = Some ds ∧
    NoDup ds ∧
    Z.of_nat (length ds) <= fst grid_size * snd grid_size ∧
    Z.of_nat (length ds) < num_dirt_spots.
Proof.
  intros Hr Hc Hmany.
  destruct (generate_dirt_spots_spec grid_size num_dirt_spots w Hr Hc)
    as (l & w' & ds & Hgen & _ & Hl & Hnd & Hall & _).
  exists l, w', ds. split; [done |]. split; [done |]. split; [done |].
  pose proof (NoDup_in_bounds_length grid_size ds Hr Hc Hnd Hall). lia.
Qed.

Lemma generate_keeps_first_occurrences_witness :
  ∃ l w',
    Casa._generate_dirt_spots (2, 3) 3 (example_world [] up_up_left_left) = Ok l w' ∧
    heap w' !! l = Some [(0, 0); (0, 2)].
Proof.
  destruct (generate_keeps_first_occurrences (2, 3) 3 (example_world [] up_up_left_left))
    as (l & w' & ds & Hgen & Hl & -> & _); [simpl; lia | simpl; lia |].
  by exists l, w'.
Defined.

Lemma generate_touches_nothing_else_witness :
  ∃ l w',
    Casa._generate_dirt_spots (2, 3) 3 (example_world [(1, 1)] up_up_left_left) = Ok l w' ∧
    heap w' !! 0%nat = Some [(1, 1)] ∧ cursor w' = 6%nat.
Proof.
  destruct (generate_touches_nothing_else (2, 3) 3 (example_world [(1, 1)] up_up_left_left))
    as (l & w' & Hgen & Hnew & _ & Hoth & _ & _ & Hcur); [simpl; lia | simpl; lia |].
  exists l, w'. split; [done |]. split; [| done].
  rewrite Hoth; [reflexivity |]. intros <-. discriminate Hnew.
Defined.

Lemma generate_overfull_request_witness :
  ∃ l w' ds,
    Casa._generate_dirt_spots (1, 2) 5 (constant_world 1) = Ok l w' ∧
    heap w' !! l = Some ds ∧ Z.of_nat (length ds) < 5.
Proof.
  destruct (generate_overfull_request (1, 2) 5 (constant_world 1))
    as (l & w' & ds & Hgen & Hl & _ & _ & Hlt); [simpl; lia | simpl; lia | simpl; lia |].
  by exists l, w', ds.
Defined.

(** ** The robot: construction and walks *)

(** Everything one [move] does to the world. *)
Lemma move_effect self w ds cs :
  heap w !! Rumba.dirt_positions self = Some ds →
  heap w !! Rumba.cleaned_spots self = Some cs →
  Rumba.dirt_positions self ≠ Rumba.cleaned_spots self →
  ∃ d w' ds' cs',
    (d ∈ Rumba.directions) ∧
    Rumba.move self w = Ok (Rumba.set_position (target self d) self) w' ∧
    heap w' !! Rumba.dirt_positions self = Some ds' ∧
    heap w' !! Rumba.cleaned_spots self = Some cs' ∧
    (((target self d ∉ ds) ∧ ds' = ds ∧ cs' = cs) ∨
     (remove_first (target self d) ds = Some ds' ∧ cs' = cs ++ [target self d])) ∧
    (∀ l, l ≠ Rumba.dirt_positions self → l ≠ Rumba.cleaned_spots self →
          heap w' !! l = heap w !! l) ∧
    plots w' = plots w ∧ tape w' = tape w ∧ cursor w' = S (cursor w).
Proof.
  intros Hd Hc Hne.
  destruct (move_cases self w ds cs Hd Hc Hne)
    as (d & w' & Hin & _ & Hmv & Hcur & Ht & Hp & [[Hnot Hh] | (ds' & Hr & Hh)]).
  - exists d, w', ds, cs. rewrite Hh. repeat split; try done. by left.
  - exists d, w', ds', (cs ++ [target self d]). rewrite Hh.
    split; [done |]. split; [done |].
    split; [by apply cleaned_heap_dirt |]. split; [apply cleaned_heap_cleaned |].
    split; [by right |]. split; [| done].
    intros l H1 H2. by apply cleaned_heap_other.
Qed.

Lemma remove_first_sublist x (v v' : list Position) :
  remove_first x v = Some v' → sublist v' v.
Proof.
  revert v'. induction v as [|y v IH]; simpl; intros v' H; [done |].
  destruct (decide (y = x)) as [->|Hne].
  - injection H as <-. by apply sublist_cons.
  - destruct (remove_first x v) as [v''|] eqn:E; [| done].
    injection H as <-. apply sublist_skip. by apply IH.
Qed.

(** What [n] moves do to the two lists and to the rest of the world. *)
Lemma steps_lists n :
  ∀ self w ds cs,
    heap w !! Rumba.dirt_positions self = Some ds →
    heap w !! Rumba.cleaned_spots self = Some cs →
    Rumba.dirt_positions self ≠ Rumba.cleaned_spots self →
    ∃ self' w' ds' cs',
      steps n self w = Ok self' w' ∧
      (Rumba.grid_size self' = Rumba.grid_size self ∧
       Rumba.dirt_positions self' = Rumba.dirt_positions self ∧
       Rumba.cleaned_spots self' = Rumba.cleaned_spots self) ∧
      heap w' !! Rumba.dirt_positions self = Some ds' ∧
      heap w' !! Rumba.cleaned_spots self = Some cs' ∧
      ds ++ cs ≡ₚ ds' ++ cs' ∧
      sublist ds' ds ∧
      cs `prefix_of` cs' ∧
      (length cs' ≤ length cs + n)%nat ∧
      (NoDup ds →
       NoDup ds' ∧
       ((0 < n)%nat ∨ Rumba.position self ∉ ds → Rumba.position self' ∉ ds')) ∧
      ((∀ l, l ≠ Rumba.dirt_positions self → l ≠ Rumba.cleaned_spots self →
             heap w' !! l = heap w !! l) ∧
       plots w' = plots w ∧ tape w' = tape w ∧ cursor w' = (cursor w + n)%nat).
Proof.
  induction n as [|n IH]; intros self w ds cs Hd Hc Hne.
  - exists self, w, ds, cs. simpl. split; [done |]. split; [done |].
    split; [done |]. split; [done |]. split; [done |]. split; [done |].
    split; [done |]. split; [lia |].
    split. { intros Hnd. split; [done |]. intros [? | ?]; [lia | done]. }
    split; [done |]. split; [done |]. split; [done | lia].
  - destruct (move_effect self w ds cs Hd Hc Hne)
      as (d & w1 & ds1 & cs1 & _ & Hmv & Hd1 & Hc1 & Hcase & Hfr1 & Hp1 & Ht1 & Hcur1).
    set (self1 := Rumba.set_position (target self d) self) in *.
    destruct (IH self1 w1 ds1 cs1 Hd1 Hc1 Hne)
      as (self' & w' & ds' & cs' & Hst & (Hg & Hdp & Hcl) & Hd' & Hc' & Hperm & Hsub
          & Hpre & Hlen & Hnd' & Hfr & Hp & Ht & Hcur).
    assert (Hstep : ds ++ cs ≡ₚ ds1 ++ cs1 ∧ sublist ds1 ds ∧ cs `prefix_of` cs1 ∧
                    (length cs1 ≤ length cs + 1)%nat ∧
                    (NoDup ds → NoDup ds1 ∧ target self d ∉ ds1)).
    { destruct Hcase as [(Hnot & -> & ->) | [Hr ->]].
      - repeat split; try done. lia.
      - pose proof (remove_first_Some _ _ _ Hr) as (_ & _ & Hpm).
        split. { rewrite Hpm. simpl. rewrite app_assoc.
                 by rewrite <- Permutation_cons_append. }
        split; [by eapply remove_first_sublist |].
        split; [by apply prefix_app_r |].
        split; [rewrite length_app; simpl; lia |].
        intros Hnd. by eapply remove_first_NoDup. }
    destruct Hstep as (Hperm1 & Hsub1 & Hpre1 & Hlen1 & Hnd1).
    exists self', w', ds', cs'.
    split; [cbn [steps]; by rewrite (bind_Ok _ _ _ _ _ Hmv) |].
    split; [done |]. split; [done |]. split; [done |].
    split; [by rewrite Hperm1 |].
    split; [by etrans |]. split; [by etrans |]. split; [lia |].
    split.
    { intros Hnd. destruct (Hnd1 Hnd) as [Hnd2 Hoff].
      destruct (Hnd' Hnd2) as [Hnd3 Hpos]. split; [done |].
      intros _. apply Hpos. by right. }
    split. { intros l H1 H2. rewrite (Hfr l H1 H2). by apply Hfr1. }
    split; [congruence |]. split; [congruence | lia].
Qed.

(** One [move] of a robot on its grid: it stays on the grid, within one cell
    of where it was. *)
Lemma move_near self w ds cs :
  heap w !! Rumba.dirt_positions self = Some ds →
  heap w !! Rumba.cleaned_spots self = Some cs →
  Rumba.dirt_positions self ≠ Rumba.cleaned_spots self →
  in_bounds (Rumba.grid_size self) (Rumba.position self) →
  ∃ self' w' ds' cs',
    Rumba.move self w = Ok self' w' ∧
    (Rumba.grid_size self' = Rumba.grid_size self ∧
     Rumba.dirt_positions self' = Rumba.dirt_positions self ∧
     Rumba.cleaned_spots self' = Rumba.cleaned_spots self) ∧
    heap w' !! Rumba.dirt_positions self = Some ds' ∧
    heap w' !! Rumba.cleaned_spots self = Some cs' ∧
    in_bounds (Rumba.grid_size self) (Rumba.position self') ∧
    manhattan (Rumba.position self) (Rumba.position self') <= 1 ∧
    (Rumba.position self' ∉ ds → ds' = ds ∧ cs' = cs).
Proof.
  intros Hd Hc Hne [Hr Hcol].
  destruct (move_effect self w ds cs Hd Hc Hne)
    as (d & w1 & ds1 & cs1 & Hin & Hmv & Hd1 & Hc1 & Hcase & _).
  eexists _, w1, ds1, cs1. split; [exact Hmv |]. split; [done |].
  split; [done |]. split; [done |]. simpl.
  split; [apply target_in_bounds; lia |].
  split.
  { unfold manhattan, target, Rumba.clamp. simpl.
    destruct (direction_cases d Hin) as [-> | [-> | [-> | ->]]]; simpl; lia. }
  intros Hnot. destruct Hcase as [(_ & -> & ->) | [Hr' _]]; [done |].
  apply remove_first_Some in Hr' as [Hin' _]. done.
Qed.

Lemma manhattan_triangle p q r : manhattan p r <= manhattan p q + manhattan q r.
Proof. unfold manhattan. lia. Qed.

(** A walk of [n] moves: the robot ends within Manhattan distance [n] of its
    start, and dirt farther away than that is out of its reach. *)
Lemma steps_walk n :
  ∀ self w ds cs,
    heap w !! Rumba.dirt_positions self = Some ds →
    heap w !! Rumba.cleaned_spots self = Some cs →
    Rumba.dirt_positions self ≠ Rumba.cleaned_spots self →
    in_bounds (Rumba.grid_size self) (Rumba.position self) →
    ∃ self' w' ds' cs',
      steps n self w = Ok self' w' ∧
      heap w' !! Rumba.dirt_positions self' = Some ds' ∧
      heap w' !! Rumba.cleaned_spots self' = Some cs' ∧
      in_bounds (Rumba.grid_size self') (Rumba.position self') ∧
      manhattan (Rumba.position self) (Rumba.position self') <= Z.of_nat n ∧
      (Forall (λ q, Z.of_nat n < manhattan (Rumba.position self) q) ds →
       ds' = ds ∧ cs' = cs).
Proof.
  induction n as [|n IH]; intros self w ds cs Hd Hc Hne Hb.
  - exists self, w, ds, cs. simpl. repeat split; try done; try apply Hb.
    unfold manhattan. lia.
  - destruct (move_near self w ds cs Hd Hc Hne Hb)
      as (self1 & w1 & ds1 & cs1 & Hmv & (Hg & Hdp & Hcl) & Hd1 & Hc1 & Hb1 & Hnear & Hkeep).
    rewrite <- Hdp in Hd1. rewrite <- Hcl in Hc1. rewrite <- Hg in Hb1.
    destruct (IH self1 w1 ds1 cs1 Hd1 Hc1 ltac:(congruence) Hb1)
      as (self' & w' & ds' & cs' & Hst & Hd' & Hc' & Hb' & Hdist & Hfar).
    exists self', w', ds', cs'.
    split; [cbn [steps]; by rewrite (bind_Ok _ _ _ _ _ Hmv) |].
    split; [done |]. split; [done |]. split; [done |].
    split.
    { pose proof (manhattan_triangle (Rumba.position self) (Rumba.position self1)
                    (Rumba.position self')). lia. }
    intros Hall.
    assert (Rumba.position self1 ∉ ds) as Hoff.
    { intros Hin. eapply Forall_forall in Hall; [| exact Hin]. simpl in Hall. lia. }
    destruct (Hkeep Hoff) as [-> ->]. apply Hfar.
    eapply Forall_impl; [exact Hall |]. intros q Hq. simpl in *.
    pose proof (manhattan_triangle (Rumba.position self) (Rumba.position self1) q). lia.
Qed.

(** X4. Construction never cleans.  A robot built on a proper grid from a
    list of dirt keeps that list's contents whatever cell it starts on, and
    starts with an empty cleaned list; so it is clean at once exactly when
    the list it was given is empty.  When every cell of the grid is dirty
    the robot necessarily starts on dirt, and that dirt stays. *)
Theorem rumba_init_never_cleans grid_size l v w :
  1 <= fst grid_size → 1 <= snd grid_size →
  heap w !! l = Some v →
  ∃ self w',
    Rumba.__init__ grid_size (Some l) w = Ok self w' ∧
    heap w' !! Rumba.dirt_positions self = Some v ∧
    heap w' !! Rumba.cleaned_spots self = Some [] ∧
    heap w' !! l = Some v ∧
    (∃ clean, Rumba.is_clean self w' = Ok clean w' ∧ (clean = true ↔ v = [])) ∧
    ((∀ p, in_bounds grid_size p → p ∈ v) → Rumba.position self ∈ v).
Proof.
  intros Hr Hc Hl.
  destruct (rumba_init_spec grid_size (Some l) w Hr Hc)
    as (self & w' & Hinit & _ & Hpos & _ & Hcl & _ & (v' & Hv' & Hdirt & _) & Hold & _).
  { simpl. eauto. }
  rewrite Hl in Hv'. injection Hv' as <-.
  exists self, w'. split; [done |]. split; [done |]. split; [done |].
  split; [rewrite Hold; [done | by exists v] |].
  split; [| by intros Hall; apply Hall].
  eexists. split; [by apply is_clean_Ok |].
  destruct v; simpl; [done |]. split; intros; discriminate.
Qed.

(** X5. Moves neither lose nor invent positions: after any number of moves
    the remaining dirt together with the cleaned list is a rearrangement of
    what the two lists held before; the dirt list only loses elements (it is
    a sublist of the old one), the cleaned list only grows at its end, and
    by at most one element per move. *)
Theorem steps_conserve_positions n self w ds cs :
  heap w !! Rumba.dirt_positions self = Some ds →
  heap w !! Rumba.cleaned_spots self = Some cs →
  Rumba.dirt_positions self ≠ Rumba.cleaned_spots self →
  ∃ self' w' ds' cs',
    steps n self w = Ok self' w' ∧
    heap w' !! Rumba.dirt_positions self' = Some ds' ∧
    heap w' !! Rumba.cleaned_spots self' = Some cs' ∧
    ds ++ cs ≡ₚ ds' ++ cs' ∧
    sublist ds' ds ∧
    cs `prefix_of` cs' ∧
    (length cs' ≤ length cs + n)%nat.
Proof.
  intros Hd Hc Hne.
  destruct (steps_lists n self w ds cs Hd Hc Hne)
    as (self' & w' & ds' & cs' & Hst & (_ & Hdp & Hcl) & Hd' & Hc' & Hperm & Hsub
        & Hpre & Hlen & _).
  exists self', w', ds', cs'. rewrite Hdp, Hcl. done.
Qed.

(** X6. From duplicate-free dirt and an empty cleaned list, every position
    is cleaned at most once: after any number of moves the cleaned list has
    no duplicates and shares nothing with the remaining dirt, the two
    together hold exactly the initial dirt, and after at least one move the
    robot does not stand on dirt. *)
Theorem steps_clean_each_once n self w ds :
  heap w !! Rumba.dirt_positions self = Some ds →
  heap w !! Rumba.cleaned_spots self = Some [] →
  Rumba.dirt_positions self ≠ Rumba.cleaned_spots self →
  NoDup ds →
  ∃ self' w' ds' cs',
    steps n self w = Ok self' w' ∧
    heap w' !! Rumba.dirt_positions self' = Some ds' ∧
    heap w' !! Rumba.cleaned_spots self' = Some cs' ∧
    NoDup ds' ∧ NoDup cs' ∧
    (∀ p, p ∈ cs' → p ∉ ds') ∧
    (∀ p, p ∈ ds ↔ p ∈ ds' ∨ p ∈ cs') ∧
    ((0 < n)%nat → Rumba.position self' ∉ ds').
Proof.
  intros Hd Hc Hne Hnd.
  destruct (steps_lists n self w ds [] Hd Hc Hne)
    as (self' & w' & ds' & cs' & Hst & (_ & Hdp & Hcl) & Hd' & Hc' & Hperm & _
        & _ & _ & Hnd' & _).
  destruct (Hnd' Hnd) as [Hnd1 Hoff].
  rewrite app_nil_r in Hperm.
  assert (Hboth : NoDup (ds' ++ cs')) by (by rewrite <- Hperm).
  apply NoDup_app in Hboth as (_ & Hdisj & Hndc).
  exists self', w', ds', cs'. rewrite Hdp, Hcl.
  split; [done |]. split; [done |]. split; [done |]. split; [done |]. split; [done |].
  split. { intros p Hp Hp'. by apply (Hdisj p). }
  split. { intros p. by rewrite Hperm, elem_of_app. }
  intros Hn. apply Hoff. by left.
Qed.

(** X7. Moves touch nothing but the robot: after [n] moves the robot still
    has its grid size and its two list objects, every other list object of
    the store is as it was, nothing was shown, and exactly [n] draws were
    consumed. *)
Theorem steps_touch_nothing_else n self w :
  rumba_wf self w →
  ∃ self' w',
    steps n self w = Ok self' w' ∧
    Rumba.grid_size self' = Rumba.grid_size self ∧
    Rumba.dirt_positions self' = Rumba.dirt_positions self ∧
    Rumba.cleaned_spots self' = Rumba.cleaned_spots self ∧
    (∀ l, l ≠ Rumba.dirt_positions self → l ≠ Rumba.cleaned_spots self →
          heap w' !! l = heap w !! l) ∧
    plots w' = plots w ∧ tape w' = tape w ∧
    cursor w' = (cursor w + n)%nat.
Proof.
  intros Hwf. destruct (rumba_wf_lists _ _ Hwf) as (ds & cs & Hd & Hc & Hne).
  destruct (steps_lists n self w ds cs Hd Hc Hne)
    as (self' & w' & ds' & cs' & Hst & (Hg & Hdp & Hcl) & _ & _ & _ & _ & _ & _ & _
        & Hfr & Hp & Ht & Hcur).
  by exists self', w'.
Qed.

(** X8. A robot on its grid moves to the cell its drawn direction points at
    when that cell is on the grid, and otherwise (a wall) stays exactly
    where it is. *)
Theorem move_stays_iff_wall self w d :
  rumba_wf self w →
  in_bounds (Rumba.grid_size self) (Rumba.position self) →
  choice Rumba.directions w = Ok d (advance w) →
  ∃ self' w',
    Rumba.move self w = Ok self' w' ∧
    (in_bounds (Rumba.grid_size self)
       (fst (Rumba.position self) + fst d, snd (Rumba.position self) + snd d) →
     Rumba.position self' =
       (fst (Rumba.position self) + fst d, snd (Rumba.position self) + snd d)) ∧
    (¬ in_bounds (Rumba.grid_size self)
         (fst (Rumba.position self) + fst d, snd (Rumba.position self) + snd d) →
     Rumba.position self' = Rumba.position self).
Proof.
  intros Hwf [Hr Hc] Hch.
  destruct (rumba_wf_lists _ _ Hwf) as (ds & cs & Hd & Hcl & Hne).
  pose proof (move_spec self w ds cs d Hd Hcl Hne Hch) as Hmv.
  apply choice_Ok_inv in Hch as [Hin _].
  eexists _, _. split; [exact Hmv |].
  destruct (Rumba.position self) as [r c] eqn:Hpos. simpl in Hr, Hc.
  unfold in_bounds, target, Rumba.clamp. rewrite Hpos. simpl.
  destruct (direction_cases d Hin) as [-> | [-> | [-> | ->]]]; simpl;
    (split; [intros [? ?]; f_equal; lia | intros Hout; f_equal; lia]).
Qed.

(** X9. After [n] moves a robot that started on its grid is on its grid, at
    Manhattan distance at most [n] from where it started. *)
Theorem steps_distance_bound n self w :
  rumba_wf self w →
  in_bounds (Rumba.grid_size self) (Rumba.position self) →
  ∃ self' w',
    steps n self w = Ok self' w' ∧
    in_bounds (Rumba.grid_size self') (Rumba.position self') ∧
    manhattan (Rumba.position self) (Rumba.position self') <= Z.of_nat n.
Proof.
  intros Hwf Hb. destruct (rumba_wf_lists _ _ Hwf) as (ds & cs & Hd & Hc & Hne).
  destruct (steps_walk n self w ds cs Hd Hc Hne Hb)
    as (self' & w' & _ & _ & Hst & _ & _ & Hb' & Hdist & _).
  by exists self', w'.
Qed.

(** X10. Dirt out of reach stays: if every dirt position is at Manhattan
    distance more than [n] from a robot on its grid, then [n] moves clean
    nothing, whatever is drawn. *)
Theorem far_dirt_stays n self w ds cs :
  heap w !! Rumba.dirt_positions self = Some ds →
  heap w !! Rumba.cleaned_spots self = Some cs →
  Rumba.dirt_positions self ≠ Rumba.cleaned_spots self →
  in_bounds (Rumba.grid_size self) (Rumba.position self) →
  Forall (λ q, Z.of_nat n < manhattan (Rumba.position self) q) ds →
  ∃ self' w',
    steps n self w = Ok self' w' ∧
    heap w' !! Rumba.dirt_positions self' = Some ds ∧
    heap w' !! Rumba.cleaned_spots self' = Some cs.
Proof.
  intros Hd Hc Hne Hb Hfar.
  destruct (steps_walk n self w ds cs Hd Hc Hne Hb)
    as (self' & w' & ds' & cs' & Hst & Hd' & Hc' & _ & _ & Hkeep).
  destruct (Hkeep Hfar) as [-> ->]. by exists self', w'.
Qed.

(** ** The main loop and the script, in full *)

Lemma move_case_lists (ds cs ds1 cs1 : list Position) p :
  ((p ∉ ds) ∧ ds1 = ds ∧ cs1 = cs) ∨
  (remove_first p ds = Some ds1 ∧ cs1 = cs ++ [p]) →
  ds ++ cs ≡ₚ ds1 ++ cs1 ∧ sublist ds1 ds ∧ (length cs1 ≤ length cs + 1)%nat.
Proof.
  intros [(Hnot & -> & ->) | [Hr ->]].
  - split; [done |]. split; [done | lia].
  - pose proof (remove_first_Some _ _ _ Hr) as (_ & _ & Hpm).
    split. { rewrite Hpm. simpl. rewrite app_assoc. by rewrite <- Permutation_cons_append. }
    split; [by eapply remove_first_sublist |]. rewrite length_app. simpl. lia.
Qed.

(** The loop from a well-formed robot on a proper grid, with enough fuel:
    the iterations [k], the lists, the frames shown and the rest of the
    world. *)
Lemma main_loop_full grid_size max_steps fuel :
  1 <= fst grid_size → 1 <= snd grid_size →
  ∀ self w n ds cs,
    Rumba.grid_size self = grid_size →
    heap w !! Rumba.dirt_positions self = Some ds →
    heap w !! Rumba.cleaned_spots self = Some cs →
    Rumba.dirt_positions self ≠ Rumba.cleaned_spots self →
    (Z.to_nat (max_steps - n) < fuel)%nat →
    ∃ self' w' (k : nat) ds' cs' frames,
      main_loop fuel grid_size max_steps self n w = Ok (self', n + Z.of_nat k) w' ∧
      Z.of_nat k <= Z.max 0 (max_steps - n) ∧
      (Rumba.dirt_positions self' = Rumba.dirt_positions self ∧
       Rumba.cleaned_spots self' = Rumba.cleaned_spots self) ∧
      heap w' !! Rumba.dirt_positions self = Some ds' ∧
      heap w' !! Rumba.cleaned_spots self = Some cs' ∧
      (ds ++ cs ≡ₚ ds' ++ cs' ∧ sublist ds' ds ∧ (length cs' ≤ length cs + k)%nat) ∧
      (ds' = [] ∨ max_steps <= n + Z.of_nat k) ∧
      (ds = [] → k = 0%nat) ∧
      plots w' = plots w ++ frames ∧
      length frames = k ∧
      Forall (λ fr, frame_grid fr = grid_size ∧
                    in_bounds grid_size (frame_position fr) ∧
                    frame_dirt fr ++ frame_cleaned fr ≡ₚ ds ++ cs) frames ∧
      ((k = 0%nat ∧ self' = self ∧ w' = w) ∨
       last frames = Some {| frame_grid := grid_size;
                             frame_position := Rumba.position self';
                             frame_dirt := ds'; frame_cleaned := cs' |}) ∧
      (∀ l, l ≠ Rumba.dirt_positions self → l ≠ Rumba.cleaned_spots self →
            heap w' !! l = heap w !! l) ∧
      cursor w' = (cursor w + k)%nat.
Proof.
  intros Hr Hc. induction fuel as [|fuel IH]; intros self w n ds cs Hg Hd Hcl Hne Hfuel;
    [lia |].
  pose proof (is_clean_Ok self w ds Hd) as Hclean.
  cbn [main_loop]. rewrite (bind_Ok _ _ _ _ _ Hclean).
  destruct (negb (Z.of_nat (length ds) =? 0) && (n <? max_steps)) eqn:Hcond.
  - apply andb_true_iff in Hcond as [Hdirty Hlt].
    apply negb_true_iff, Z.eqb_neq in Hdirty. apply Z.ltb_lt in Hlt.
    destruct (move_effect self w ds cs Hd Hcl Hne)
      as (d & w1 & ds1 & cs1 & _ & Hmv & Hd1 & Hc1 & Hcase & Hfr1 & Hp1 & _ & Hcur1).
    apply move_case_lists in Hcase as (Hperm1 & Hsub1 & Hlen1).
    set (self1 := Rumba.set_position (target self d) self) in *.
    rewrite (bind_Ok _ _ _ _ _ Hmv).
    erewrite bind_Ok; [| reflexivity].
    erewrite bind_Ok; [| by apply (plot_grid_Ok _ _ _ ds1 cs1)].
    cbn [snap_position Rumba.get_state].
    set (fr1 := {| frame_grid := grid_size; frame_position := Rumba.position self1;
                   frame_dirt := ds1; frame_cleaned := cs1 |}).
    change (show _ w1) with (show fr1 w1).
    destruct (IH self1 (show fr1 w1) (n + 1) ds1 cs1 Hg Hd1 Hc1 Hne ltac:(lia))
      as (self' & w' & k & ds' & cs' & frames & Hloop & Hk & Hrefs & Hd' & Hc'
          & (Hperm & Hsub & Hlen) & Hend & _ & Hplots & Hlenf & Hall & Hlast & Hfr & Hcur).
    exists self', w', (S k), ds', cs', (fr1 :: frames).
    split. { rewrite Hloop. do 2 f_equal. lia. }
    split; [lia |]. split; [done |]. split; [done |]. split; [done |].
    split. { split; [by rewrite Hperm1 |]. split; [by etrans | lia]. }
    split. { destruct Hend as [? | ?]; [by left | right; lia]. }
    split. { intros ->. simpl in Hdirty. lia. }
    split. { rewrite Hplots. simpl. rewrite Hp1. by rewrite <- app_assoc. }
    split; [simpl; by rewrite Hlenf |].
    split.
    { apply Forall_cons. split.
      - split; [done |]. split; [| by symmetry].
        simpl. rewrite <- Hg. apply target_in_bounds; by rewrite Hg.
      - eapply Forall_impl; [exact Hall |]. intros fr (? & ? & Hfrp).
        split; [done |]. split; [done |]. by rewrite Hfrp. }
    split.
    { right. destruct Hlast as [(-> & -> & ->) | Hlast].
      - destruct frames; [| done]. simpl in Hd', Hc'.
        rewrite Hd1 in Hd'. rewrite Hc1 in Hc'. by injection Hd' as <-; injection Hc' as <-.
      - rewrite last_cons. by rewrite Hlast. }
    split. { intros l H1 H2. rewrite (Hfr l H1 H2). simpl. by apply Hfr1. }
    rewrite Hcur. simpl. lia.
  - exists self, w, 0%nat, ds, cs, [].
    split. { unfold ret. do 2 f_equal. lia. }
    split; [lia |]. split; [done |]. split; [done |]. split; [done |].
    split. { split; [done |]. split; [done | lia]. }
    split.
    { apply andb_false_iff in Hcond as [Hcond | Hcond].
      - left. apply negb_false_iff, Z.eqb_eq in Hcond. destruct ds; [done | simpl in Hcond; lia].
      - right. apply Z.ltb_ge in Hcond. lia. }
    split; [done |]. split; [by rewrite app_nil_r |]. split; [done |].
    split; [done |]. split; [by left |]. split; [done | lia].
Qed.

(** The whole script on a proper grid, with enough fuel: the generated list
    [ds] at its location [l], the outcome, and what the house's list holds
    in the end. *)
Lemma run_full fuel grid_size num_dirt_spots max_steps w :
  1 <= fst grid_size → 1 <= snd grid_size →
  (Z.to_nat max_steps < fuel)%nat →
  ∃ l w1 ds out w' ds' (k : nat),
    Casa._generate_dirt_spots grid_size num_dirt_spots w = Ok l w1 ∧
    heap w1 !! l = Some ds ∧
    run fuel grid_size num_dirt_spots max_steps w = Ok out w' ∧
    steps_taken out = Z.of_nat k ∧
    Z.of_nat k <= Z.max 0 max_steps ∧
    heap w' !! l = Some ds' ∧
    sublist ds' ds ∧
    (success out = true ↔ ds' = []) ∧
    (success out = true → (length ds ≤ k)%nat) ∧
    (success out = false → max_steps <= Z.of_nat k) ∧
    (∃ frames, plots w' = plots w ++ frames ∧ length frames = k) ∧
    cursor w' = (cursor w + 2 * Z.to_nat num_dirt_spots + 2 + k)%nat.
Proof.
  intros Hr Hc Hfuel. unfold run.
  destruct (generate_dirt_spots_spec grid_size num_dirt_spots w Hr Hc)
    as (l & w1 & ds & Hgen & _ & Hl & _ & _ & _ & _ & _ & Hp1 & Hcur1).
  assert (Hcasa : Casa.__init__ grid_size num_dirt_spots w =
                  Ok {| Casa.grid_size := grid_size; Casa.dirt_positions := l |} w1).
  { unfold Casa.__init__. by rewrite (bind_Ok _ _ _ _ _ Hgen). }
  rewrite (bind_Ok _ _ _ _ _ Hcasa).
  erewrite bind_Ok; [| reflexivity]. cbn [Casa.dirt_positions].
  destruct (rumba_init_spec grid_size (Some l) w1 Hr Hc) as
    (self & w2 & Hinit & Hg & _ & (_ & _ & Hne) & Hcl & Hclnew
     & (v & Hv & Hdirt & Hsame & Hnew) & Hold & _ & Hp2 & Hcur2).
  { simpl. eauto. }
  rewrite Hl in Hv. injection Hv as <-.
  rewrite (bind_Ok _ _ _ _ _ Hinit).
  destruct (main_loop_full grid_size max_steps fuel Hr Hc self w2 0 ds [] Hg Hdirt Hcl Hne)
    as (self' & w3 & k & ds' & cs' & frames & Hloop & Hk & (Hdp & _) & Hd' & Hc'
        & (Hperm & Hsub & Hlen) & Hend & Hzero & Hplots & Hlenf & _ & _ & Hfr & Hcur3).
  { replace (max_steps - 0) with max_steps by lia. done. }
  rewrite (bind_Ok _ _ _ _ _ Hloop). cbn [fst snd].
  rewrite <- Hdp in Hd'.
  rewrite (bind_Ok _ _ _ _ _ (is_clean_Ok self' w3 ds' Hd')).
  rewrite Hdp in Hd'.
  assert (Hsucc : (Z.of_nat (length ds') =? 0) = true ↔ ds' = []).
  { rewrite Z.eqb_eq. destruct ds'; simpl; [done |]. split; [lia | done]. }
  assert (Hhouse : heap w3 !! l = Some ds').
  { destruct (decide (Rumba.dirt_positions self = l)) as [<- | Hother]; [done |].
    assert (ds = []) as -> by (destruct ds; [done |]; by destruct Hother; apply Hsame).
    apply sublist_nil_r in Hsub as ->.
    rewrite Hfr; [| done |].
    - rewrite Hold; [done | by exists []].
    - intros ->. rewrite Hclnew in Hl. done. }
  exists l, w1, ds, {| success := Z.of_nat (length ds') =? 0;
                       steps_taken := 0 + Z.of_nat k |}, w3, ds', k.
  split; [done |]. split; [done |]. split; [reflexivity |].
  cbn [steps_taken success].
  split; [lia |]. split; [lia |]. split; [done |]. split; [done |]. split; [done |].
  split.
  { intros Hs. apply Hsucc in Hs as ->. simpl in Hperm. rewrite app_nil_r in Hperm.
    apply Permutation_length in Hperm. simpl in Hlen. lia. }
  split.
  { intros Hs. destruct Hend as [-> | ?]; [done | lia]. }
  split. { exists frames. by rewrite Hplots, Hp2, Hp1. }
  rewrite Hcur3, Hcur2, Hcur1. lia.
Qed.

(** X11. What the plot is shown by the loop: on a proper grid and with
    enough fuel, the loop from step counter [n] shows one frame per
    iteration, after the frames that were there.  Every frame has the
    script's grid size, the robot on the grid, and a dirt list and a
    cleaned list that together rearrange the positions the loop started
    with; the last frame shows the final state. *)
Theorem main_loop_frames fuel grid_size max_steps self w n ds cs :
  1 <= fst grid_size → 1 <= snd grid_size →
  Rumba.grid_size self = grid_size →
  heap w !! Rumba.dirt_positions self = Some ds →
  heap w !! Rumba.cleaned_spots self = Some cs →
  Rumba.dirt_positions self ≠ Rumba.cleaned_spots self →
  (Z.to_nat (max_steps - n) < fuel)%nat →
  ∃ self' w' steps' ds' cs' frames,
    main_loop fuel grid_size max_steps self n w = Ok (self', steps') w' ∧
    heap w' !! Rumba.dirt_positions self' = Some ds' ∧
    heap w' !! Rumba.cleaned_spots self' = Some cs' ∧
    plots w' = plots w ++ frames ∧
    Z.of_nat (length frames) = steps' - n ∧
    Forall (λ fr, frame_grid fr = grid_size ∧
                  in_bounds grid_size (frame_position fr) ∧
                  frame_dirt fr ++ frame_cleaned fr ≡ₚ ds ++ cs) frames ∧
    (frames ≠ [] →
     last frames = Some {| frame_grid := grid_size;
                           frame_position := Rumba.position self';
                           frame_dirt := ds'; frame_cleaned := cs' |}).
Proof.
  intros Hr Hc Hg Hd Hcl Hne Hfuel.
  destruct (main_loop_full grid_size max_steps fuel Hr Hc self w n ds cs Hg Hd Hcl Hne Hfuel)
    as (self' & w' & k & ds' & cs' & frames & Hloop & _ & (Hdp & Hclp) & Hd' & Hc'
        & _ & _ & _ & Hplots & Hlenf & Hall & Hlast & _).
  exists self', w', (n + Z.of_nat k), ds', cs', frames.
  rewrite Hdp, Hclp. split; [done |]. split; [done |]. split; [done |].
  split; [done |]. split; [lia |]. split; [done |].
  intros Hnonempty. destruct Hlast as [(-> & _) | Hlast]; [| done].
  by destruct frames.
Qed.

(** X12. The house's own list tells the outcome.  On a proper grid the list
    object that the generator returned, which the house keeps, holds in the
    end a sublist of the generated spots, and it is empty exactly when the
    run reports success; a successful run took at least as many steps as
    there were spots, and an unsuccessful one used up [max_steps]. *)
Theorem run_success_iff_house_empty fuel grid_size num_dirt_spots max_steps w :
  1 <= fst grid_size → 1 <= snd grid_size →
  (Z.to_nat max_steps < fuel)%nat →
  ∃ l w1 ds out w' ds',
    Casa._generate_dirt_spots grid_size num_dirt_spots w = Ok l w1 ∧
    heap w1 !! l = Some ds ∧
    run fuel grid_size num_dirt_spots max_steps w = Ok out w' ∧
    heap w' !! l = Some ds' ∧
    sublist ds' ds ∧
    (success out = true ↔ ds' = []) ∧
    (success out = true → Z.of_nat (length ds) <= steps_taken out) ∧
    (success out = false → max_steps <= steps_taken out).
Proof.
  intros Hr Hc Hfuel.
  destruct (run_full fuel grid_size num_dirt_spots max_steps w Hr Hc Hfuel)
    as (l & w1 & ds & out & w' & ds' & k & Hgen & Hl & Hrun & Hsteps & _ & Hl' & Hsub
        & Hiff & Hmin & Hfail & _).
  exists l, w1, ds, out, w', ds'. rewrite Hsteps.
  repeat split; try done; try apply Hiff.
  - intros Hs. specialize (Hmin Hs). lia.
Qed.

(** X13. Without a budget nothing moves: with [max_steps <= 0] on a proper
    grid the loop does not iterate.  The script reports 0 steps, shows no
    frame, makes no draw beyond those of the two constructors, and reports
    success exactly when no dirt spot was generated. *)
Theorem run_without_budget fuel grid_size num_dirt_spots max_steps w :
  1 <= fst grid_size → 1 <= snd grid_size →
  max_steps <= 0 → (0 < fuel)%nat →
  ∃ l w1 ds out w',
    Casa._generate_dirt_spots grid_size num_dirt_spots w = Ok l w1 ∧
    heap w1 !! l = Some ds ∧
    run fuel grid_size num_dirt_spots max_steps w = Ok out w' ∧
    steps_taken out = 0 ∧
    plots w' = plots w ∧
    cursor w' = (cursor w + 2 * Z.to_nat num_dirt_spots + 2)%nat ∧
    (success out = true ↔ ds = []).
Proof.
  intros Hr Hc Hmax Hfuel.
  destruct (run_full fuel grid_size num_dirt_spots max_steps w Hr Hc ltac:(lia))
    as (l & w1 & ds & out & w' & ds' & k & Hgen & Hl & Hrun & Hsteps & Hk & Hl' & Hsub
        & Hiff & Hmin & _ & (frames & Hplots & Hlenf) & Hcur).
  assert (k = 0%nat) as -> by lia.
  destruct frames; [| done]. rewrite app_nil_r in Hplots.
  exists l, w1, ds, out, w'. split; [done |]. split; [done |]. split; [done |].
  split; [done |]. split; [done |]. split; [lia |].
  split.
  - intros Hs. specialize (Hmin Hs). destruct ds; [done | simpl in Hmin; lia].
  - intros ->. apply Hiff. by apply sublist_nil_r in Hsub.
Qed.

Lemma casa_init_empty_range grid_size num_dirt_spots w :
  fst grid_size <= 0 ∨ snd grid_size <= 0 →
  Casa.__init__ grid_size num_dirt_spots w = Raise ValueError ∨
  ∃ casa w', Casa.__init__ grid_size num_dirt_spots w = Ok casa w' ∧
             is_Some (heap w' !! Casa.dirt_positions casa).
Proof.
  intros Hbad. unfold Casa.__init__, Casa._generate_dirt_spots.
  destruct (alloc_Ok [] w) as (l & Hal & _).
  destruct (Z.to_nat num_dirt_spots) as [|k].
  - right. eexists _, _. split; [reflexivity |]. simpl. exists []. apply lookup_insert_eq.
  - left. apply bind_Raise. rewrite (bind_Ok _ _ _ _ _ Hal). apply bind_Raise.
    cbn [for_range]. apply bind_Raise. by apply place_spot_empty_range.
Qed.

(** X14. The script cannot run on a grid without rows or columns: for every
    dirt count, budget and tape it ends with [ValueError] before the loop,
    raised by the house's generator or, when no spot is requested, by the
    robot's constructor. *)
Theorem run_rejects_degenerate_grid fuel grid_size num_dirt_spots max_steps w :
  fst grid_size <= 0 ∨ snd grid_size <= 0 →
  run fuel grid_size num_dirt_spots max_steps w = Raise ValueError.
Proof.
  intros Hbad. unfold run.
  destruct (casa_init_empty_range grid_size num_dirt_spots w Hbad)
    as [Hraise | (casa & w1 & Hcasa & Hlist)].
  - by apply bind_Raise.
  - rewrite (bind_Ok _ _ _ _ _ Hcasa).
    erewrite bind_Ok; [| reflexivity].
    apply bind_Raise. by apply rumba_init_empty_range.
Qed.

Lemma remove_first_app x (pre post : list Position) :
  x ∉ pre → remove_first x (pre ++ x :: post) = Some (pre ++ post).
Proof.
  induction pre as [|y pre IH]; simpl; intros Hnot.
  - by rewrite decide_True.
  - apply not_elem_of_cons in Hnot as [Hne Hnot].
    rewrite decide_False by done. by rewrite IH.
Qed.

(** X15. A dirt list with repeated positions loses one occurrence per visit,
    the first one: when the robot lands on [p] and the dirt list is
    [pre ++ p :: post] with [p] not in [pre], the list becomes [pre ++ post]
    (later occurrences of [p] in [post] stay) and [p] is appended to the
    cleaned list once. *)
Theorem move_removes_first_occurrence self w d pre post cs :
  heap w !! Rumba.dirt_positions self = Some (pre ++ target self d :: post) →
  heap w !! Rumba.cleaned_spots self = Some cs →
  Rumba.dirt_positions self ≠ Rumba.cleaned_spots self →
  choice Rumba.directions w = Ok d (advance w) →
  target self d ∉ pre →
  ∃ self' w',
    Rumba.move self w = Ok self' w' ∧
    Rumba.position self' = target self d ∧
    heap w' !! Rumba.dirt_positions self' = Some (pre ++ post) ∧
    heap w' !! Rumba.cleaned_spots self' = Some (cs ++ [target self d]).
Proof.
  intros Hd Hc Hne Hch Hnot.
  pose proof (move_hit self w _ (pre ++ post) cs d (target self d) Hd Hc Hne Hch eq_refl
                (remove_first_app _ _ _ Hnot)) as Hmv.
  eexists _, _. split; [exact Hmv |]. split; [done |]. simpl.
  split; [by apply cleaned_heap_dirt | apply cleaned_heap_cleaned].
Qed.

(** ** The further properties at concrete inputs *)

Lemma rumba_init_never_cleans_witness :
  ∃ self w',
    Rumba.__init__ (3, 3) (Some 0%nat) (example_world [(0, 0)] (λ _, 0)) = Ok self w' ∧
    heap w' !! Rumba.dirt_positions self = Some [(0, 0)] ∧
    heap w' !! Rumba.cleaned_spots self = Some [].
Proof.
  destruct (rumba_init_never_cleans (3, 3) 0%nat [(0, 0)] (example_world [(0, 0)] (λ _, 0)))
    as (self & w' & Hinit & Hd & Hc & _); [simpl; lia | simpl; lia | reflexivity |].
  by exists self, w'.
Defined.

Lemma steps_conserve_positions_witness :
  ∃ self' w' ds' cs',
    steps 3 (example_robot (3, 3) (1, 1)) (example_world [(0, 0)] (λ _, 0)) = Ok self' w' ∧
    [(0, 0)] ++ [] ≡ₚ ds' ++ cs'.
Proof.
  destruct (steps_conserve_positions 3 (example_robot (3, 3) (1, 1))
              (example_world [(0, 0)] (λ _, 0)) [(0, 0)] [])
    as (self' & w' & ds' & cs' & Hst & _ & _ & Hperm & _);
    [reflexivity | reflexivity | simpl; lia |].
  by exists self', w', ds', cs'.
Defined.

Lemma steps_clean_each_once_witness :
  ∃ self' w' ds' cs',
    steps 3 (example_robot (3, 3) (1, 1)) (example_world [(0, 0)] (λ _, 0)) = Ok self' w' ∧
    heap w' !! Rumba.dirt_positions self' = Some ds' ∧
    heap w' !! Rumba.cleaned_spots self' = Some cs' ∧
    NoDup cs' ∧ Rumba.position self' ∉ ds'.
Proof.
  destruct (steps_clean_each_once 3 (example_robot (3, 3) (1, 1))
              (example_world [(0, 0)] (λ _, 0)) [(0, 0)])
    as (self' & w' & ds' & cs' & Hst & Hd & Hc & _ & Hnd & _ & _ & Hoff);
    [reflexivity | reflexivity | simpl; lia | apply NoDup_singleton |].
  exists self', w', ds', cs'. repeat split; try done. apply Hoff. lia.
Defined.

Lemma steps_touch_nothing_else_witness :
  ∃ self' w',
    steps 3 (example_robot (3, 3) (1, 1)) (example_world [(0, 0)] (λ _, 0)) = Ok self' w' ∧
    cursor w' = 3%nat ∧ plots w' = [].
Proof.
  destruct (steps_touch_nothing_else 3 (example_robot (3, 3) (1, 1))
              (example_world [(0, 0)] (λ _, 0)))
    as (self' & w' & Hst & _ & _ & _ & _ & Hp & _ & Hcur); [apply example_world_wf |].
  by exists self', w'.
Defined.

Lemma move_stays_iff_wall_witness :
  ∃ self' w',
    Rumba.move (example_robot (5, 5) (0, 0)) (example_world [(3, 3)] (λ _, 0)) = Ok self' w' ∧
    Rumba.position self' = (0, 0).
Proof.
  destruct (move_stays_iff_wall (example_robot (5, 5) (0, 0))
              (example_world [(3, 3)] (λ _, 0)) (-1, 0))
    as (self' & w' & Hmv & _ & Hwall);
    [apply example_world_wf | unfold in_bounds; simpl; lia | reflexivity |].
  exists self', w'. split; [done |]. apply Hwall.
  unfold in_bounds. simpl. lia.
Defined.

Lemma steps_distance_bound_witness :
  ∃ self' w',
    steps 3 (example_robot (9, 9) (4, 4)) (example_world [(0, 0)] (λ _, 0)) = Ok self' w' ∧
    manhattan (4, 4) (Rumba.position self') <= 3.
Proof.
  destruct (steps_distance_bound 3 (example_robot (9, 9) (4, 4))
              (example_world [(0, 0)] (λ _, 0)))
    as (self' & w' & Hst & _ & Hdist);
    [apply example_world_wf | unfold in_bounds; simpl; lia |].
  by exists self', w'.
Defined.

Lemma far_dirt_stays_witness :
  ∃ self' w',
    steps 3 (example_robot (9, 9) (4, 4)) (example_world [(0, 0)] (λ _, 0)) = Ok self' w' ∧
    heap w' !! Rumba.dirt_positions self' = Some [(0, 0)] ∧
    heap w' !! Rumba.cleaned_spots self' = Some [].
Proof.
  apply (far_dirt_stays 3 (example_robot (9, 9) (4, 4))
           (example_world [(0, 0)] (λ _, 0)) [(0, 0)] []);
    [reflexivity | reflexivity | simpl; lia | unfold in_bounds; simpl; lia |].
  apply Forall_singleton. unfold manhattan. simpl. lia.
Defined.

Lemma main_loop_frames_witness :
  ∃ self' w' steps' frames,
    main_loop 4 (3, 3) 3 (example_robot (3, 3) (1, 1))
      0 (example_world [(0, 0)] (λ _, 0)) = Ok (self', steps') w' ∧
    plots w' = [] ++ frames ∧
    Z.of_nat (length frames) = steps' - 0.
Proof.
  destruct (main_loop_frames 4 (3, 3) 3 (example_robot (3, 3) (1, 1))
              (example_world [(0, 0)] (λ _, 0)) 0 [(0, 0)] [])
    as (self' & w' & steps' & _ & _ & frames & Hloop & _ & _ & Hplots & Hlen & _);
    [simpl; lia | simpl; lia | reflexivity | reflexivity | reflexivity | simpl; lia
     | simpl; lia |].
  by exists self', w', steps', frames.
Defined.

Lemma run_success_iff_house_empty_witness :
  ∃ l out w' ds',
    run 4 (2, 2) 1 3 (constant_world 0) = Ok out w' ∧
    heap w' !! l = Some ds' ∧
    (success out = true ↔ ds' = []).
Proof.
  destruct (run_success_iff_house_empty 4 (2, 2) 1 3 (constant_world 0))
    as (l & _ & _ & out & w' & ds' & _ & _ & Hrun & Hl & _ & Hiff & _);
    [simpl; lia | simpl; lia | simpl; lia |].
  by exists l, out, w', ds'.
Defined.

Lemma run_without_budget_witness :
  ∃ out w',
    run 1 (2, 2) 1 0 (constant_world 0) = Ok out w' ∧
    steps_taken out = 0 ∧ plots w' = [].
Proof.
  destruct (run_without_budget 1 (2, 2) 1 0 (constant_world 0))
    as (_ & _ & _ & out & w' & _ & _ & Hrun & Hsteps & Hplots & _);
    [simpl; lia | simpl; lia | lia | lia |].
  by exists out, w'.
Defined.

Lemma run_rejects_degenerate_grid_witness :
  run 3 (0, 5) 2 3 (constant_world 0) = Raise ValueError.
Proof.
  apply (run_rejects_degenerate_grid 3 (0, 5) 2 3 (constant_world 0)).
  left. simpl. lia.
Defined.

Lemma move_removes_first_occurrence_witness :
  ∃ self' w',
    Rumba.move (example_robot (3, 3) (1, 1))
      (example_world [(2, 2); (0, 1); (0, 1)] (λ _, 0)) = Ok self' w' ∧
    heap w' !! Rumba.dirt_positions self' = Some [(2, 2); (0, 1)] ∧
    heap w' !! Rumba.cleaned_spots self' = Some [(0, 1)].
Proof.
  destruct (move_removes_first_occurrence (example_robot (3, 3) (1, 1))
              (example_world [(2, 2); (0, 1); (0, 1)] (λ _, 0)) (-1, 0)
              [(2, 2)] [(0, 1)] [])
    as (self' & w' & Hmv & _ & Hd & Hc);
    [reflexivity | reflexivity | simpl; lia | reflexivity | |].
  - rewrite list_elem_of_singleton. discriminate.
  - by exists self', w'.
Defined.
